(** * Army simulation: a shallow embedding of [src/main.py]

    The module defines military units ([Unit] and its three subclasses),
    and the [Army] class with training, transformation and battle
    resolution.  Python integers are unbounded, so they are modelled by
    [Z]; Python lists by [list]; a Python string by the [string] of its
    UTF-8 bytes.

    Unit objects are created only inside [Army.__init__] and
    [Army.transform_unit] and each is stored in exactly one roster slot, so
    a roster is modelled as a list of unit values.  Army objects, on the
    other hand, are passed by reference to [Army.attack], which mutates
    both its receiver and its argument: armies live in a heap and [attack]
    is written over that heap, so that the receiver and the argument may be
    the same object.

    What becomes of a unit that a battle has taken out of its roster cannot
    be said about lists of values.  For that the module [Obj] embeds the
    same methods once more with the units as objects of a heap of their
    own, and rosters as lists of addresses. *)

From Stdlib Require Import ZArith String Ascii DecimalString.
From stdpp Require Import base option list strings gmap fin_maps.

Local Open Scope string_scope.
Local Open Scope Z_scope.

(** ** Strings *)

(** [str.lower()].  The program only ever compares a lower-cased string
    with an ASCII literal, so what matters of the result is its ASCII
    part.  An ASCII letter [A]..[Z] becomes [a]..[z] and any other ASCII
    character stays.  Outside ASCII exactly two code points have a
    lower-casing with an ASCII letter in it, and both are lower-cased as
    Python does: U+212A KELVIN SIGN (bytes E2 84 AA) becomes ["k"], and
    U+0130, the capital I with a dot above (bytes C4 B0), becomes ["i"]
    followed by U+0307 (bytes CC 87).  The bytes of every other code
    point are kept: Python turns such a code point into code points
    outside ASCII again, so for every ASCII text [t] the comparison
    [s.lower() == t] holds exactly when [lower s = t]. *)
Definition lower_ascii (c : ascii) : ascii :=
  let n := nat_of_ascii c in
  if ((65 <=? n) && (n <=? 90))%nat then ascii_of_nat (n + 32) else c.

Definition is_byte (n : nat) (c : ascii) : bool := Nat.eqb (nat_of_ascii c) n.

Fixpoint lower (s : string) : string :=
  match s with
  | EmptyString => EmptyString
  | String c s1 =>
      match s1 with
      | EmptyString => String (lower_ascii c) (lower s1)
      | String c1 s2 =>
          if is_byte 196 c && is_byte 176 c1 then
            String "i"%char
              (String (ascii_of_nat 204) (String (ascii_of_nat 135) (lower s2)))
          else
            match s2 with
            | EmptyString => String (lower_ascii c) (lower s1)
            | String c2 s3 =>
                if is_byte 226 c && is_byte 132 c1 && is_byte 170 c2 then
                  String "k"%char (lower s3)
                else String (lower_ascii c) (lower s1)
            end
      end
  end.

(** Two names match case-insensitively when their lower-cased forms agree. *)
Definition matches_nocase (s t : string) : Prop := lower s = lower t.

(** ** Units *)

Module Units.

(** The Python class of a unit object, as tested by [isinstance]. *)
Inductive UnitClass : Type := PikemanClass | ArcherClass | KnightClass.

Record Unit : Type := mkUnit {
  cls : UnitClass;
  unit_type : string;
  strength : Z;
  years_of_life : Z;
  training_cost : Z;
  training_gain : Z
}.

#[export] Instance UnitClass_eq_dec : EqDecision UnitClass.
Proof. solve_decision. Defined.

#[export] Instance Unit_eq_dec : EqDecision Unit.
Proof. solve_decision. Defined.

(** [Unit.__init__]: [years_of_life] starts at 0. *)
Definition Unit_init (c : UnitClass) (ty : string) (s cost gain : Z) : Unit :=
  {| cls := c; unit_type := ty; strength := s; years_of_life := 0;
     training_cost := cost; training_gain := gain |}.

Definition Pikeman : Unit := Unit_init PikemanClass "pikeman" 5 10 3.
Definition Archer : Unit := Unit_init ArcherClass "archer" 10 20 7.
Definition Knight : Unit := Unit_init KnightClass "knight" 20 30 10.

Definition get_years_of_life (u : Unit) : Z := years_of_life u.

Definition set_strength (s : Z) (u : Unit) : Unit :=
  {| cls := cls u; unit_type := unit_type u; strength := s;
     years_of_life := years_of_life u;
     training_cost := training_cost u; training_gain := training_gain u |}.

Definition set_years_of_life (y : Z) (u : Unit) : Unit :=
  {| cls := cls u; unit_type := unit_type u; strength := strength u;
     years_of_life := y;
     training_cost := training_cost u; training_gain := training_gain u |}.

(** [Unit.train]: [self.strength += self.training_gain]. *)
Definition train (u : Unit) : Unit :=
  set_strength (strength u + training_gain u) u.

(** One iteration of [_age_all_units]: [unit.years_of_life += 1]. *)
Definition age (u : Unit) : Unit :=
  set_years_of_life (years_of_life u + 1) u.

(** Base strength of each class, as set by the subclass constructors. *)
Definition base_strength (c : UnitClass) : Z :=
  match c with PikemanClass => 5 | ArcherClass => 10 | KnightClass => 20 end.

End Units.
Export Units.

(** ** Armies *)

(** An entry of [Army.battle_record]: the dictionary with the keys
    ['opponent'], ['our_strength'], ['enemy_strength'] and ['result']. *)
Record BattleRecord : Type := mkBattleRecord {
  opponent : string;
  our_strength : Z;
  enemy_strength : Z;
  result : string
}.

Record Army : Type := mkArmy {
  civilization : string;
  gold : Z;
  units : list Unit;
  battle_record : list BattleRecord
}.

Definition set_gold (g : Z) (a : Army) : Army :=
  {| civilization := civilization a; gold := g; units := units a;
     battle_record := battle_record a |}.

Definition set_units (us : list Unit) (a : Army) : Army :=
  {| civilization := civilization a; gold := gold a; units := us;
     battle_record := battle_record a |}.

Definition set_battle_record (rs : list BattleRecord) (a : Army) : Army :=
  {| civilization := civilization a; gold := gold a; units := units a;
     battle_record := rs |}.

(** ** Exceptions

    A method either returns or raises.  [ValueError] is raised by
    [Army.__init__], and by the builtins [max] (empty argument) and
    [list.remove] (element absent); [IndexError] by list indexing. *)
Inductive exn : Type :=
  | ValueError (msg : string)
  | IndexError (msg : string).

#[export] Instance result_ret : MRet (sum exn) := λ A x, inr x.
#[export] Instance result_bind : MBind (sum exn) :=
  λ A B f m, match m with inl e => inl e | inr x => f x end.

(** [l[i]] for an index the caller has checked to be non-negative. *)
Definition list_index {A} (l : list A) (i : Z) : exn + A :=
  match l !! Z.to_nat i with
  | Some x => inr x
  | None => inl (IndexError "list index out of range")
  end.

(** [Army.__init__].  The civilization is stored as given; the roster is
    chosen by its lower-cased form. *)
Definition Army_init (civ : string) : exn + Army :=
  let civilization_lower := lower civ in
  let fresh us := {| civilization := civ; gold := 1000; units := us;
                     battle_record := [] |} in
  if String.eqb civilization_lower "chinese" then
    inr (fresh (replicate 2 Pikeman ++ replicate 25 Archer ++ replicate 2 Knight)%list)
  else if String.eqb civilization_lower "english" then
    inr (fresh (replicate 10 Pikeman ++ replicate 10 Archer ++ replicate 10 Knight)%list)
  else if String.eqb civilization_lower "byzantine" then
    inr (fresh (replicate 5 Pikeman ++ replicate 8 Archer ++ replicate 15 Knight)%list)
  else
    inl (ValueError ("Unknown civilization: " ++ civ
                     ++ ". Valid options: chinese, english, byzantine")).

(** [sum(unit.strength for unit in units)]. *)
Fixpoint sum_strength (us : list Unit) : Z :=
  match us with
  | [] => 0
  | u :: us' => strength u + sum_strength us'
  end.

(** [Army.get_total_strength]. *)
Definition get_total_strength (a : Army) : Z := sum_strength (units a).

(** [Army.train_unit]: returns the boolean result and the army after the
    call. *)
Definition train_unit (unit_index : Z) (a : Army) : exn + (bool * Army) :=
  if (unit_index <? 0) || (unit_index >=? Z.of_nat (length (units a))) then
    mret (false, a)
  else
    u ← list_index (units a) unit_index;
    if gold a >=? training_cost u then
      mret (true,
            set_units (<[Z.to_nat unit_index := train u]> (units a))
                      (set_gold (gold a - training_cost u) a))
    else
      mret (false, a).

(** [Army.transform_unit]. *)
Definition transform_unit (unit_index : Z) (new_type : string) (a : Army)
  : exn + (bool * Army) :=
  if (unit_index <? 0) || (unit_index >=? Z.of_nat (length (units a))) then
    mret (false, a)
  else
    current_unit ← list_index (units a) unit_index;
    let new_type_lower := lower new_type in
    let rule : option (Z * Unit) :=
      if bool_decide (cls current_unit = PikemanClass)
         && String.eqb new_type_lower "archer" then
        let training_bonus := strength current_unit - 5 in
        Some (30, set_strength (10 + training_bonus)
                    (set_years_of_life (years_of_life current_unit) Archer))
      else if bool_decide (cls current_unit = ArcherClass)
              && String.eqb new_type_lower "knight" then
        let training_bonus := strength current_unit - 10 in
        Some (40, set_strength (20 + training_bonus)
                    (set_years_of_life (years_of_life current_unit) Knight))
      else None in
    match rule with
    | None => mret (false, a)
    | Some (cost, new_unit) =>
        if gold a >=? cost then
          mret (true,
                set_units (<[Z.to_nat unit_index := new_unit]> (units a))
                          (set_gold (gold a - cost) a))
        else
          mret (false, a)
    end.

(** [max(units, key=lambda unit: unit.strength)]: the scan keeps the
    current best and replaces it only by a strictly stronger unit, so the
    first unit of maximal strength is returned. *)
Fixpoint max_from (best : Unit) (us : list Unit) : Unit :=
  match us with
  | [] => best
  | u :: us' =>
      if strength u >? strength best then max_from u us' else max_from best us'
  end.

Definition max_by_strength (us : list Unit) : exn + Unit :=
  match us with
  | [] => inl (ValueError "max() iterable argument is empty")
  | u :: us' => inr (max_from u us')
  end.

(** [list.remove(x)]: deletes the first element equal to [x].  Unit objects
    are compared by identity in Python; here the comparison is on values,
    and [remove_strongest_once_delete] below shows that for the unit
    returned by [max_by_strength] both delete the same roster position. *)
Fixpoint list_remove (x : Unit) (us : list Unit) : exn + list Unit :=
  match us with
  | [] => inl (ValueError "list.remove(x): x not in list")
  | u :: us' =>
      if decide (u = x) then inr us'
      else us'' ← list_remove x us'; mret (u :: us'')
  end.

(** The body of the loop of [remove_strongest_units]. *)
Definition remove_strongest_once (us : list Unit) : exn + list Unit :=
  strongest_unit ← max_by_strength us;
  list_remove strongest_unit us.

(** [for _ in range(n): <body>]. *)
Fixpoint remove_strongest_loop (n : nat) (us : list Unit) : exn + list Unit :=
  match n with
  | O => mret us
  | S n' => us' ← remove_strongest_once us; remove_strongest_loop n' us'
  end.

(** [Army.remove_strongest_units]. *)
Definition remove_strongest_units (count : Z) (a : Army) : exn + Army :=
  match units a with
  | [] => mret a
  | _ :: _ =>
      let units_to_remove := Z.min count (Z.of_nat (length (units a))) in
      us' ← remove_strongest_loop (Z.to_nat units_to_remove) (units a);
      mret (set_units us' a)
  end.

(** [Army._age_all_units]. *)
Definition _age_all_units (a : Army) : Army :=
  set_units (age <$> units a) a.

(** ** The object heap

    Army objects are referred to by their address.  A computation over the
    heap returns a value or stops with a fault, and in both cases leaves the
    heap as mutated so far.  [Dangling] marks the use of an address that
    holds no object; it is an artefact of the model (Python code cannot
    hold such a reference) and the theorems below show where it cannot
    occur. *)
Inductive fault : Type :=
  | Raised (e : exn)
  | Dangling (l : nat).

Definition M (A : Type) : Type := gmap nat Army → (fault + A) * gmap nat Army.

#[export] Instance M_ret : MRet M := λ A x h, (inr x, h).
#[export] Instance M_bind : MBind M :=
  λ A B f m h, match m h with
               | (inl e, h') => (inl e, h')
               | (inr x, h') => f x h'
               end.

Definition read (l : nat) : M Army :=
  λ h, match h !! l with
       | Some a => (inr a, h)
       | None => (inl (Dangling l), h)
       end.

Definition write (l : nat) (a : Army) : M () :=
  λ h, (inr (), <[l := a]> h).

Definition lift {A} (r : exn + A) : M A :=
  λ h, match r with
       | inl e => (inl (Raised e), h)
       | inr x => (inr x, h)
       end.

(** Stores a new object at an address not in use. *)
Definition alloc (a : Army) : M nat :=
  λ h, let l := fresh (dom h) in (inr l, <[l := a]> h).

(** [Army(civilization)]: builds the object and, unless the constructor
    raises, stores it at a fresh address. *)
Definition new_army (civ : string) : M nat :=
  a ← lift (Army_init civ); alloc a.

(** Method calls on the object at address [l]. *)
Definition call_train_unit (l : nat) (unit_index : Z) : M bool :=
  a ← read l;
  r ← lift (train_unit unit_index a);
  write l r.2;; mret r.1.

Definition call_transform_unit (l : nat) (unit_index : Z) (new_type : string)
  : M bool :=
  a ← read l;
  r ← lift (transform_unit unit_index new_type a);
  write l r.2;; mret r.1.

Definition call_remove_strongest_units (l : nat) (count : Z) : M () :=
  a ← read l;
  a' ← lift (remove_strongest_units count a);
  write l a'.

Definition call_age_all_units (l : nat) : M () :=
  a ← read l; write l (_age_all_units a).

(** [army.gold += n]. *)
Definition gold_add (l : nat) (n : Z) : M () :=
  a ← read l; write l (set_gold (gold a + n) a).

(** [army.battle_record.append(r)]. *)
Definition battle_record_append (l : nat) (r : BattleRecord) : M () :=
  a ← read l; write l (set_battle_record (battle_record a ++ [r]) a).

(** The result recorded for the opponent: ['defeat'] if ours is
    ['victory'], ['victory'] if ours is ['defeat'], ['draw'] otherwise. *)
Definition mirrored_result (r : string) : string :=
  if String.eqb r "victory" then "defeat"
  else if String.eqb r "defeat" then "victory"
  else "draw".

(** [Army.attack]: [self] and [other_army] are addresses, and may be the
    same one. *)
Definition attack (self other_army : nat) : M string :=
  s ← read self;
  if bool_decide (units s = []) then mret "no_units" else
  o ← read other_army;
  if bool_decide (units o = []) then mret "no_target" else
  let our := get_total_strength s in
  let enemy := get_total_strength o in
  let opponent_name := civilization o in
  res ← (if our >? enemy then
           gold_add self 100;;
           call_remove_strongest_units other_army 2;;
           mret "victory"
         else if enemy >? our then
           gold_add other_army 100;;
           call_remove_strongest_units self 2;;
           mret "defeat"
         else
           call_remove_strongest_units self 1;;
           call_remove_strongest_units other_army 1;;
           mret "draw");
  call_age_all_units self;;
  call_age_all_units other_army;;
  battle_record_append self
    {| opponent := opponent_name; our_strength := our;
       enemy_strength := enemy; result := res |};;
  battle_record_append other_army
    {| opponent := civilization s; our_strength := enemy;
       enemy_strength := our; result := mirrored_result res |};;
  mret res.

(** ** Programs over the API

    A client is a sequence of calls.  An exception raised by a call is
    taken to be caught by the client, which goes on with the heap as the
    call left it. *)
Inductive op : Type :=
  | OpNew (civ : string)
  | OpTrain (l : nat) (unit_index : Z)
  | OpTransform (l : nat) (unit_index : Z) (new_type : string)
  | OpAttack (self other_army : nat).

Definition run_op (o : op) (h : gmap nat Army) : gmap nat Army :=
  match o with
  | OpNew civ => (new_army civ h).2
  | OpTrain l i => (call_train_unit l i h).2
  | OpTransform l i ty => (call_transform_unit l i ty h).2
  | OpAttack a b => (attack a b h).2
  end.

Definition run_ops (os : list op) (h : gmap nat Army) : gmap nat Army :=
  foldl (λ h o, run_op o h) h os.

(** ** The preset table of the specification

    Civilization name, then the numbers of pikemen, archers and knights. *)
Definition preset_table : list (string * (nat * nat * nat)) :=
  [ ("chinese", (2, 25, 2)); ("english", (10, 10, 10));
    ("byzantine", (5, 8, 15)) ]%nat.

Definition preset_names : list string := preset_table.*1.

(** The roster the table prescribes, in the order pikemen, archers,
    knights. *)
Definition preset_roster (c : nat * nat * nat) : list Unit :=
  (replicate c.1.1 Pikeman ++ replicate c.1.2 Archer ++ replicate c.2 Knight)%list.

(** ** The removal policy of the specification

    "Remove up to [n] units, at each step removing the first unit in roster
    order whose current strength is maximal", written independently of the
    code. *)

(** Greatest strength found in a roster (0 for the empty roster). *)
Fixpoint max_strength (us : list Unit) : Z :=
  match us with
  | [] => 0
  | u :: us' =>
      match us' with
      | [] => strength u
      | _ :: _ => Z.max (strength u) (max_strength us')
      end
  end.

(** Position of the first unit whose strength is the greatest one. *)
Definition first_strongest (us : list Unit) : option nat :=
  fst <$> list_find (λ u, strength u = max_strength us) us.

Definition remove_first_strongest (us : list Unit) : list Unit :=
  match first_strongest us with
  | Some i => delete i us
  | None => us
  end.

Fixpoint strongest_removed (n : nat) (us : list Unit) : list Unit :=
  match n with
  | O => us
  | S n' => strongest_removed n' (remove_first_strongest us)
  end.

(** ** The transformation table of the specification *)

(** The two rules of [transform_unit], as a table: class of the current
    unit, lower-cased target, cost, class of the new unit. *)
Definition transform_rule (c : UnitClass) (target : string)
  : option (Z * UnitClass) :=
  match c with
  | PikemanClass => if String.eqb target "archer" then Some (30, ArcherClass) else None
  | ArcherClass => if String.eqb target "knight" then Some (40, KnightClass) else None
  | KnightClass => None
  end.

(** The freshly constructed object of each class. *)
Definition fresh_unit (c : UnitClass) : Unit :=
  match c with
  | PikemanClass => Pikeman
  | ArcherClass => Archer
  | KnightClass => Knight
  end.

(** The unit that replaces [u] when it is transformed into class [c]. *)
Definition transformed (u : Unit) (c : UnitClass) : Unit :=
  {| cls := c; unit_type := unit_type (fresh_unit c);
     strength := base_strength c + (strength u - base_strength (cls u));
     years_of_life := years_of_life u;
     training_cost := training_cost (fresh_unit c);
     training_gain := training_gain (fresh_unit c) |}.

(** ** The battle outcome of the specification

    What a battle between two different armies does to one of them, given
    the two strength snapshots and the result from its own point of view:
    100 gold on a victory, two units lost on a defeat and one on a draw,
    the survivors aged by one year, one record appended. *)

Definition battle_result (our enemy : Z) : string :=
  if our >? enemy then "victory"
  else if enemy >? our then "defeat"
  else "draw".

Definition units_lost (res : string) : nat :=
  if String.eqb res "defeat" then 2
  else if String.eqb res "draw" then 1
  else 0.

Definition after_battle (a : Army) (opponent_name : string)
    (our enemy : Z) (res : string) : Army :=
  {| civilization := civilization a;
     gold := if String.eqb res "victory" then gold a + 100 else gold a;
     units := age <$> strongest_removed (units_lost res) (units a);
     battle_record :=
       battle_record a ++ [ {| opponent := opponent_name; our_strength := our;
                               enemy_strength := enemy; result := res |} ] |}.

(** ** Example armies *)

(** The army that [Army("english")] builds. *)
Definition english : Army :=
  {| civilization := "english"; gold := 1000;
     units := preset_roster (10, 10, 10)%nat; battle_record := [] |}.

(** The army that [Army("chinese")] builds. *)
Definition chinese : Army :=
  {| civilization := "chinese"; gold := 1000;
     units := preset_roster (2, 25, 2)%nat; battle_record := [] |}.

(** ** The gold invariant *)

Definition gold_ok (h : gmap nat Army) : Prop :=
  map_Forall (λ _ a, 0 ≤ gold a) h.

(** A computation keeps the invariant, and its return value satisfies [Q]. *)
Definition keeps_gold_ok {A} (m : M A) (Q : A → Prop) : Prop :=
  ∀ h, gold_ok h → gold_ok (m h).2 ∧ ∀ x, (m h).1 = inr x → Q x.

(** ** The battle history report *)

(** The line separator ["\n"]. *)
Definition newline : string := String (ascii_of_nat 10) EmptyString.

(** [str(n)] for an integer, as an f-string field renders it: decimal
    digits, with a leading minus sign for a negative number. *)
Definition str_of_int (n : Z) : string := NilZero.string_of_int (Z.to_int n).

(** [sep.join(lines)]. *)
Fixpoint join (sep : string) (lines : list string) : string :=
  match lines with
  | [] => ""
  | l :: ls =>
      match ls with
      | [] => l
      | _ :: _ => l ++ sep ++ join sep ls
      end
  end.

(** The line of one battle:
    [f"Vs {opponent}: {result} ({our_str} vs {enemy_str})"]. *)
Definition battle_line (battle : BattleRecord) : string :=
  "Vs " ++ opponent battle ++ ": " ++ result battle
  ++ " (" ++ str_of_int (our_strength battle)
  ++ " vs " ++ str_of_int (enemy_strength battle) ++ ")".

(** [Army.get_battle_record]. *)
Definition get_battle_record (a : Army) : string :=
  match battle_record a with
  | [] => "Army of " ++ civilization a ++ newline ++ "No battles recorded"
  | _ :: _ =>
      let history_lines :=
        ("Army of " ++ civilization a) :: (battle_line <$> battle_record a) in
      join newline history_lines
  end.

(** ** One call, seen from the heap

    The ways in which a call changes the heap: not at all; by a new army;
    by a successful training or transformation of a unit; by a battle
    between two different armies; by the battle of an army against
    itself. *)

Definition after_self_battle (s : Army) : Army :=
  let t := get_total_strength s in
  let r := {| opponent := civilization s; our_strength := t;
              enemy_strength := t; result := "draw" |} in
  {| civilization := civilization s;
     gold := gold s;
     units := age <$> (age <$> strongest_removed 2 (units s));
     battle_record := (battle_record s ++ [r]) ++ [r] |}.

Inductive heap_step : gmap nat Army → gmap nat Army → Prop :=
  | step_none h : heap_step h h
  | step_new h civ a :
      Army_init civ = inr a →
      heap_step h (<[fresh (dom h) := a]> h)
  | step_train h l a i u :
      h !! l = Some a → units a !! i = Some u → training_cost u ≤ gold a →
      heap_step h
        (<[l := set_units (<[i := train u]> (units a))
                          (set_gold (gold a - training_cost u) a)]> h)
  | step_transform h l a i u target cost c :
      h !! l = Some a → units a !! i = Some u →
      transform_rule (cls u) target = Some (cost, c) → cost ≤ gold a →
      heap_step h
        (<[l := set_units (<[i := transformed u c]> (units a))
                          (set_gold (gold a - cost) a)]> h)
  | step_battle h self other_army s o :
      self ≠ other_army →
      h !! self = Some s → h !! other_army = Some o →
      units s ≠ [] → units o ≠ [] →
      let our := get_total_strength s in
      let enemy := get_total_strength o in
      let res := battle_result our enemy in
      heap_step h
        (<[other_army := after_battle o (civilization s) enemy our
                           (mirrored_result res)]>
           (<[self := after_battle s (civilization o) our enemy res]> h))
  | step_self_battle h l s :
      h !! l = Some s → units s ≠ [] →
      heap_step h (<[l := after_self_battle s]> h).

(** ** Well-formed armies *)

(** A unit of an army that has fought [battles] battles: its type name and
    training figures are those of its class, its strength is at least the
    base strength of its class, and it is as old as the army's history is
    long. *)
Definition unit_wf (battles : nat) (u : Unit) : Prop :=
  unit_type u = unit_type (fresh_unit (cls u)) ∧
  training_cost u = training_cost (fresh_unit (cls u)) ∧
  training_gain u = training_gain (fresh_unit (cls u)) ∧
  base_strength (cls u) ≤ strength u ∧
  years_of_life u = Z.of_nat battles.

(** A record whose result is the comparison of its two strengths, between
    non-empty armies of one of the three civilizations. *)
Definition record_ok (r : BattleRecord) : Prop :=
  lower (opponent r) ∈ preset_names ∧
  5 ≤ our_strength r ∧ 5 ≤ enemy_strength r ∧
  result r = battle_result (our_strength r) (enemy_strength r).

Definition army_wf (a : Army) : Prop :=
  lower (civilization a) ∈ preset_names ∧
  Forall (unit_wf (length (battle_record a))) (units a) ∧
  Forall record_ok (battle_record a).

(** What never changes, or changes one way only, in the life of an army. *)
Definition army_evolves (a a' : Army) : Prop :=
  civilization a' = civilization a ∧
  battle_record a `prefix_of` battle_record a' ∧
  (length (units a') ≤ length (units a))%nat.

(** ** Units as objects

    A second embedding of the same methods, in which a unit is an object
    with an address, as it is in Python: a roster is a list of unit
    addresses, and a method that changes a unit changes the object.  It is
    needed where a statement is about a unit that is no longer in any
    roster, which the lists of unit values above cannot express.  The heap
    holds the objects a caller can reach: an object that a method creates
    and drops before it returns is not entered. *)
Module Obj.

Record Army : Type := mkArmy {
  civilization : string;
  gold : Z;
  units : list nat;
  battle_record : list BattleRecord
}.

Record World : Type := mkWorld {
  unit_heap : gmap nat Unit;
  army_heap : gmap nat Army
}.

Definition empty_world : World := mkWorld ∅ ∅.

Definition with_gold (g : Z) (a : Army) : Army :=
  {| civilization := civilization a; gold := g; units := units a;
     battle_record := battle_record a |}.

Definition with_units (ps : list nat) (a : Army) : Army :=
  {| civilization := civilization a; gold := gold a; units := ps;
     battle_record := battle_record a |}.

Definition with_battle_record (rs : list BattleRecord) (a : Army) : Army :=
  {| civilization := civilization a; gold := gold a; units := units a;
     battle_record := rs |}.

Definition M (A : Type) : Type := World → (fault + A) * World.

#[global] Instance M_ret : MRet M := λ A x W, (inr x, W).
#[global] Instance M_bind : MBind M :=
  λ A B f m W, match m W with
               | (inl e, W') => (inl e, W')
               | (inr x, W') => f x W'
               end.

Definition lift {A} (r : exn + A) : M A :=
  λ W, match r with
       | inl e => (inl (Raised e), W)
       | inr x => (inr x, W)
       end.

Definition read_unit (p : nat) : M Unit :=
  λ W, match unit_heap W !! p with
       | Some u => (inr u, W)
       | None => (inl (Dangling p), W)
       end.

Definition write_unit (p : nat) (u : Unit) : M () :=
  λ W, (inr (), mkWorld (<[p := u]> (unit_heap W)) (army_heap W)).

Definition alloc_unit (u : Unit) : M nat :=
  λ W, let p := fresh (dom (unit_heap W)) in
       (inr p, mkWorld (<[p := u]> (unit_heap W)) (army_heap W)).

Definition read_army (l : nat) : M Army :=
  λ W, match army_heap W !! l with
       | Some a => (inr a, W)
       | None => (inl (Dangling l), W)
       end.

Definition write_army (l : nat) (a : Army) : M () :=
  λ W, (inr (), mkWorld (unit_heap W) (<[l := a]> (army_heap W))).

Definition alloc_army (a : Army) : M nat :=
  λ W, let l := fresh (dom (army_heap W)) in
       (inr l, mkWorld (unit_heap W) (<[l := a]> (army_heap W))).

(** [[Pikeman() for _ in range(n)]] and the like: one new object for each
    value, in order. *)
Fixpoint alloc_units (us : list Unit) : M (list nat) :=
  match us with
  | [] => mret []
  | u :: us' => p ← alloc_unit u; ps ← alloc_units us'; mret (p :: ps)
  end.

(** [Army(civilization)]. *)
Definition new_army (civ : string) : M nat :=
  let civilization_lower := lower civ in
  let build (us : list Unit) : M nat :=
    ps ← alloc_units us;
    alloc_army {| civilization := civ; gold := 1000; units := ps;
                  battle_record := [] |} in
  if String.eqb civilization_lower "chinese" then
    build (replicate 2 Pikeman ++ replicate 25 Archer ++ replicate 2 Knight)%list
  else if String.eqb civilization_lower "english" then
    build (replicate 10 Pikeman ++ replicate 10 Archer ++ replicate 10 Knight)%list
  else if String.eqb civilization_lower "byzantine" then
    build (replicate 5 Pikeman ++ replicate 8 Archer ++ replicate 15 Knight)%list
  else
    lift (inl (ValueError ("Unknown civilization: " ++ civ
                           ++ ". Valid options: chinese, english, byzantine"))).

(** [sum(unit.strength for unit in units)]. *)
Fixpoint sum_strength (ps : list nat) : M Z :=
  match ps with
  | [] => mret 0
  | p :: ps' => u ← read_unit p; t ← sum_strength ps'; mret (strength u + t)
  end.

(** [Army.get_total_strength]. *)
Definition get_total_strength (self : nat) : M Z :=
  a ← read_army self; sum_strength (units a).

(** [Army.train_unit]. *)
Definition train_unit (self : nat) (unit_index : Z) : M bool :=
  a ← read_army self;
  if (unit_index <? 0) || (unit_index >=? Z.of_nat (length (units a))) then
    mret false
  else
    p ← lift (list_index (units a) unit_index);
    u ← read_unit p;
    if gold a >=? training_cost u then
      write_army self (with_gold (gold a - training_cost u) a);;
      write_unit p (train u);;
      mret true
    else
      mret false.

(** [Army.transform_unit]. *)
Definition transform_unit (self : nat) (unit_index : Z) (new_type : string)
  : M bool :=
  a ← read_army self;
  if (unit_index <? 0) || (unit_index >=? Z.of_nat (length (units a))) then
    mret false
  else
    p ← lift (list_index (units a) unit_index);
    current_unit ← read_unit p;
    let new_type_lower := lower new_type in
    let rule : option (Z * Unit) :=
      if bool_decide (cls current_unit = PikemanClass)
         && String.eqb new_type_lower "archer" then
        let training_bonus := strength current_unit - 5 in
        Some (30, set_strength (10 + training_bonus)
                    (set_years_of_life (years_of_life current_unit) Archer))
      else if bool_decide (cls current_unit = ArcherClass)
              && String.eqb new_type_lower "knight" then
        let training_bonus := strength current_unit - 10 in
        Some (40, set_strength (20 + training_bonus)
                    (set_years_of_life (years_of_life current_unit) Knight))
      else None in
    match rule with
    | None => mret false
    | Some (cost, new_unit) =>
        if gold a >=? cost then
          q ← alloc_unit new_unit;
          write_army self
            (with_units (<[Z.to_nat unit_index := q]> (units a))
                        (with_gold (gold a - cost) a));;
          mret true
        else
          mret false
    end.

(** [max(units, key=lambda unit: unit.strength)] over unit objects: the
    key of each unit is read in roster order, and the unit kept so far is
    replaced only by a strictly stronger one. *)
Fixpoint max_from (best : nat) (best_key : Z) (ps : list nat) : M nat :=
  match ps with
  | [] => mret best
  | p :: ps' =>
      u ← read_unit p;
      if strength u >? best_key then max_from p (strength u) ps'
      else max_from best best_key ps'
  end.

Definition max_by_strength (ps : list nat) : M nat :=
  match ps with
  | [] => lift (inl (ValueError "max() iterable argument is empty"))
  | p :: ps' => u ← read_unit p; max_from p (strength u) ps'
  end.

(** [list.remove(x)] on a list of objects: deletes the first element that
    is the object [x]. *)
Fixpoint list_remove (x : nat) (ps : list nat) : exn + list nat :=
  match ps with
  | [] => inl (ValueError "list.remove(x): x not in list")
  | p :: ps' =>
      if decide (p = x) then inr ps'
      else ps'' ← list_remove x ps'; mret (p :: ps'')
  end.

(** The body of the loop of [remove_strongest_units]. *)
Definition remove_strongest_once (self : nat) : M () :=
  a ← read_army self;
  strongest_unit ← max_by_strength (units a);
  ps ← lift (list_remove strongest_unit (units a));
  write_army self (with_units ps a).

Fixpoint remove_strongest_loop (self : nat) (n : nat) : M () :=
  match n with
  | O => mret ()
  | S n' => remove_strongest_once self;; remove_strongest_loop self n'
  end.

(** [Army.remove_strongest_units]. *)
Definition remove_strongest_units (self : nat) (count : Z) : M () :=
  a ← read_army self;
  match units a with
  | [] => mret ()
  | _ :: _ =>
      let units_to_remove := Z.min count (Z.of_nat (length (units a))) in
      remove_strongest_loop self (Z.to_nat units_to_remove)
  end.

(** The loop of [_age_all_units]: [unit.years_of_life += 1] for each unit
    of the roster, in order. *)
Fixpoint age_each (ps : list nat) : M () :=
  match ps with
  | [] => mret ()
  | p :: ps' => u ← read_unit p; write_unit p (age u);; age_each ps'
  end.

(** [Army._age_all_units]. *)
Definition _age_all_units (self : nat) : M () :=
  a ← read_army self; age_each (units a).

(** [army.gold += n]. *)
Definition gold_add (l : nat) (n : Z) : M () :=
  a ← read_army l; write_army l (with_gold (gold a + n) a).

(** [army.battle_record.append(r)]. *)
Definition battle_record_append (l : nat) (r : BattleRecord) : M () :=
  a ← read_army l;
  write_army l (with_battle_record (battle_record a ++ [r]) a).

(** [Army.attack]. *)
Definition attack (self other_army : nat) : M string :=
  s ← read_army self;
  if bool_decide (units s = []) then mret "no_units" else
  o ← read_army other_army;
  if bool_decide (units o = []) then mret "no_target" else
  our ← get_total_strength self;
  enemy ← get_total_strength other_army;
  let opponent_name := civilization o in
  res ← (if our >? enemy then
           gold_add self 100;;
           remove_strongest_units other_army 2;;
           mret "victory"
         else if enemy >? our then
           gold_add other_army 100;;
           remove_strongest_units self 2;;
           mret "defeat"
         else
           remove_strongest_units self 1;;
           remove_strongest_units other_army 1;;
           mret "draw");
  _age_all_units self;;
  _age_all_units other_army;;
  battle_record_append self
    {| opponent := opponent_name; our_strength := our;
       enemy_strength := enemy; result := res |};;
  battle_record_append other_army
    {| opponent := civilization s; our_strength := enemy;
       enemy_strength := our; result := mirrored_result res |};;
  mret res.

(** Programs of calls, as for the heap of army values. *)
Definition run_op (o : op) (W : World) : World :=
  match o with
  | OpNew civ => (new_army civ W).2
  | OpTrain l i => (train_unit l i W).2
  | OpTransform l i ty => (transform_unit l i ty W).2
  | OpAttack a b => (attack a b W).2
  end.

Definition run_ops (os : list op) (W : World) : World :=
  foldl (λ W o, run_op o W) W os.



End Obj.



(** * Construction *)

Section Construction.

Lemma sum_strength_app us vs :
  sum_strength (us ++ vs) = sum_strength us + sum_strength vs.
Proof. induction us as [|u us IH]; simpl; lia. Qed.

Lemma sum_strength_replicate n u :
  sum_strength (replicate n u) = Z.of_nat n * strength u.
Proof. induction n as [|n IH]; simpl; lia. Qed.

Lemma preset_roster_length c :
  length (preset_roster c) = (c.1.1 + c.1.2 + c.2)%nat.
Proof. unfold preset_roster. rewrite !length_app, !length_replicate. lia. Qed.

Lemma preset_roster_strength c :
  sum_strength (preset_roster c)
  = 5 * Z.of_nat c.1.1 + 10 * Z.of_nat c.1.2 + 20 * Z.of_nat c.2.
Proof.
  unfold preset_roster.
  rewrite !sum_strength_app, !sum_strength_replicate. simpl. lia.
Qed.

(** What [Army.__init__] returns for each lower-cased name. *)
Lemma Army_init_preset civ name c :
  (name, c) ∈ preset_table → lower civ = name →
  Army_init civ = inr {| civilization := civ; gold := 1000;
                         units := preset_roster c; battle_record := [] |}.
Proof.
  intros Hin Hlow. unfold Army_init. rewrite Hlow.
  unfold preset_table in Hin.
  repeat (apply elem_of_cons in Hin as [Hin|Hin];
          [injection Hin as -> ->; reflexivity|]).
  by apply elem_of_nil in Hin.
Qed.

Lemma Army_init_unknown civ :
  lower civ ∉ preset_names →
  Army_init civ = inl (ValueError ("Unknown civilization: " ++ civ
                        ++ ". Valid options: chinese, english, byzantine")).
Proof.
  intros Hnot. unfold Army_init.
  destruct (String.eqb_spec (lower civ) "chinese") as [E|_].
  { exfalso. apply Hnot. rewrite E. vm_compute. set_solver. }
  destruct (String.eqb_spec (lower civ) "english") as [E|_].
  { exfalso. apply Hnot. rewrite E. vm_compute. set_solver. }
  destruct (String.eqb_spec (lower civ) "byzantine") as [E|_].
  { exfalso. apply Hnot. rewrite E. vm_compute. set_solver. }
  reflexivity.
Qed.

Lemma preset_names_lower name : name ∈ preset_names → lower name = name.
Proof.
  unfold preset_names, preset_table. simpl. intros Hin.
  repeat (apply elem_of_cons in Hin as [->|Hin]; [reflexivity|]).
  by apply elem_of_nil in Hin.
Qed.

Lemma matches_preset_iff civ :
  (∃ name, name ∈ preset_names ∧ matches_nocase civ name)
  ↔ lower civ ∈ preset_names.
Proof.
  unfold matches_nocase. split.
  - intros (name & Hin & Hm). rewrite Hm, preset_names_lower; done.
  - intros Hin. exists (lower civ). split; [done|].
    by rewrite (preset_names_lower _ Hin).
Qed.

End Construction.

(** C2: for every civilization name matching a preset name up to case,
    construction succeeds and yields an army holding the name as given,
    1000 gold, an empty battle history and the preset roster in the order
    pikemen, archers, knights; roster size and total strength are those of
    the table. *)
Theorem construction_matches_preset civ name p a k :
  (name, (p, a, k)) ∈ preset_table →
  matches_nocase civ name →
  ∃ army,
    Army_init civ = inr army ∧
    civilization army = civ ∧
    gold army = 1000 ∧
    battle_record army = [] ∧
    units army = (replicate p Pikeman ++ replicate a Archer
                  ++ replicate k Knight)%list ∧
    length (units army) = (p + a + k)%nat ∧
    get_total_strength army
    = 5 * Z.of_nat p + 10 * Z.of_nat a + 20 * Z.of_nat k.
Proof.
  intros Hin Hm.
  assert (Hlow : lower civ = name).
  { unfold matches_nocase in Hm. rewrite Hm.
    apply preset_names_lower. unfold preset_names.
    apply list_elem_of_fmap. by exists (name, (p, a, k)). }
  eexists. split; [by apply (Army_init_preset _ _ _ Hin)|].
  repeat split; simpl.
  - apply (preset_roster_length (p, a, k)).
  - apply (preset_roster_strength (p, a, k)).
Qed.

Lemma construction_matches_preset_witness :
  ∃ army, Army_init "Chinese" = inr army ∧
    civilization army = "Chinese" ∧ gold army = 1000 ∧
    battle_record army = [] ∧
    units army = (replicate 2 Pikeman ++ replicate 25 Archer
                  ++ replicate 2 Knight)%list ∧
    length (units army) = 29%nat ∧ get_total_strength army = 300.
Proof.
  apply (construction_matches_preset "Chinese" "chinese" 2 25 2).
  - vm_compute. set_solver.
  - reflexivity.
Defined.

(** C9: construction raises the unknown-civilization [ValueError] exactly
    for the names that match none of the three presets up to case, and
    returns an army exactly for those that match one. *)
Theorem construction_unknown_civilization civ :
  (Army_init civ = inl (ValueError ("Unknown civilization: " ++ civ
                         ++ ". Valid options: chinese, english, byzantine"))
   ↔ ¬ ∃ name, name ∈ preset_names ∧ matches_nocase civ name) ∧
  ((∃ army, Army_init civ = inr army)
   ↔ ∃ name, name ∈ preset_names ∧ matches_nocase civ name).
Proof.
  rewrite matches_preset_iff.
  destruct (decide (lower civ ∈ preset_names)) as [Hin|Hnot].
  - assert (∃ army, Army_init civ = inr army) as [army Ha].
    { unfold preset_names in Hin.
      apply list_elem_of_fmap in Hin as ([n c] & Hl & Hin).
      eexists. by apply (Army_init_preset _ _ _ Hin). }
    split; split; try done.
    + rewrite Ha. done.
    + by exists army.
  - pose proof (Army_init_unknown civ Hnot) as He. split; split; try done.
    intros [army Ha]. rewrite He in Ha. done.
Qed.

Lemma construction_unknown_civilization_witness :
  Army_init "french"
  = inl (ValueError
           "Unknown civilization: french. Valid options: chinese, english, byzantine") ∧
  ∃ army, Army_init "BYZANTINE" = inr army.
Proof.
  split.
  - apply (proj1 (construction_unknown_civilization "french")).
    intros (name & Hin & Hm). unfold matches_nocase in Hm.
    rewrite (preset_names_lower _ Hin) in Hm. subst name.
    vm_compute in Hin. set_solver.
  - apply (proj2 (construction_unknown_civilization "BYZANTINE")).
    exists "byzantine". split; [vm_compute; set_solver|reflexivity].
Defined.

(** * Training and transformation *)

Section Training.

Lemma list_index_lookup {A} (l : list A) i x :
  l !! Z.to_nat i = Some x → list_index l i = inr x.
Proof. intros H. unfold list_index. by rewrite H. Qed.

Lemma index_guard_false i (us : list Unit) :
  0 ≤ i < Z.of_nat (length us) →
  (i <? 0) || (i >=? Z.of_nat (length us)) = false.
Proof. intros. apply orb_false_iff. lia. Qed.

Lemma index_guard_true i (us : list Unit) :
  ¬ (0 ≤ i < Z.of_nat (length us)) →
  (i <? 0) || (i >=? Z.of_nat (length us)) = true.
Proof. intros. apply orb_true_iff. lia. Qed.

Lemma lookup_in_bounds (us : list Unit) i u :
  0 ≤ i → us !! Z.to_nat i = Some u → 0 ≤ i < Z.of_nat (length us).
Proof. intros Hi Hu. apply lookup_lt_Some in Hu. lia. Qed.

Lemma in_bounds_lookup (us : list Unit) i :
  0 ≤ i < Z.of_nat (length us) → ∃ u, us !! Z.to_nat i = Some u.
Proof.
  intros Hi. destruct (lookup_lt_is_Some_2 us (Z.to_nat i)) as [u Hu]; [lia|].
  by exists u.
Qed.

Lemma train_unit_out_of_bounds i a :
  ¬ (0 ≤ i < Z.of_nat (length (units a))) → train_unit i a = inr (false, a).
Proof. intros H. unfold train_unit. by rewrite index_guard_true. Qed.

Lemma train_unit_in_bounds i a u :
  0 ≤ i → units a !! Z.to_nat i = Some u →
  train_unit i a =
    if gold a >=? training_cost u then
      inr (true, set_units (<[Z.to_nat i := train u]> (units a))
                           (set_gold (gold a - training_cost u) a))
    else inr (false, a).
Proof.
  intros Hi Hu. unfold train_unit.
  rewrite index_guard_false by eauto using lookup_in_bounds.
  rewrite (list_index_lookup _ _ _ Hu). simpl. by destruct (_ >=? _).
Qed.

Lemma transform_unit_out_of_bounds i ty a :
  ¬ (0 ≤ i < Z.of_nat (length (units a))) →
  transform_unit i ty a = inr (false, a).
Proof. intros H. unfold transform_unit. by rewrite index_guard_true. Qed.

Lemma transform_unit_in_bounds i ty a u :
  0 ≤ i → units a !! Z.to_nat i = Some u →
  transform_unit i ty a =
    match transform_rule (cls u) (lower ty) with
    | None => inr (false, a)
    | Some (cost, c) =>
        if gold a >=? cost then
          inr (true, set_units (<[Z.to_nat i := transformed u c]> (units a))
                               (set_gold (gold a - cost) a))
        else inr (false, a)
    end.
Proof.
  intros Hi Hu. unfold transform_unit.
  rewrite index_guard_false by eauto using lookup_in_bounds.
  rewrite (list_index_lookup _ _ _ Hu). simpl.
  unfold transform_rule, transformed.
  destruct (cls u) eqn:Hc; simpl;
    destruct (String.eqb (lower ty) "archer") eqn:Ea;
    destruct (String.eqb (lower ty) "knight") eqn:Ek; simpl;
    try reflexivity;
    try (apply String.eqb_eq in Ea; apply String.eqb_eq in Ek; congruence);
    rewrite Hc; by destruct (_ >=? _).
Qed.

End Training.

(** * Running heap computations *)

Section Running.

Implicit Types (h : gmap nat Army) (l : nat) (a : Army).

Lemma bind_run {A B} (m : M A) (f : A → M B) h :
  (m ≫= f) h = match m h with
               | (inl e, h') => (inl e, h')
               | (inr x, h') => f x h'
               end.
Proof. reflexivity. Qed.

Lemma read_run h l a : h !! l = Some a → read l h = (inr a, h).
Proof. intros H. unfold read. by rewrite H. Qed.

Lemma read_dangling h l : h !! l = None → read l h = (inl (Dangling l), h).
Proof. intros H. unfold read. by rewrite H. Qed.

Lemma call_train_unit_run h l a i b a' :
  h !! l = Some a → train_unit i a = inr (b, a') →
  call_train_unit l i h = (inr b, <[l := a']> h).
Proof.
  intros Hl Ht. unfold call_train_unit.
  rewrite bind_run, (read_run _ _ _ Hl), bind_run, Ht. reflexivity.
Qed.

Lemma call_transform_unit_run h l a i ty b a' :
  h !! l = Some a → transform_unit i ty a = inr (b, a') →
  call_transform_unit l i ty h = (inr b, <[l := a']> h).
Proof.
  intros Hl Ht. unfold call_transform_unit.
  rewrite bind_run, (read_run _ _ _ Hl), bind_run, Ht. reflexivity.
Qed.

Lemma call_remove_strongest_units_run h l a n a' :
  h !! l = Some a → remove_strongest_units n a = inr a' →
  call_remove_strongest_units l n h = (inr (), <[l := a']> h).
Proof.
  intros Hl Hr. unfold call_remove_strongest_units.
  rewrite bind_run, (read_run _ _ _ Hl), bind_run, Hr. reflexivity.
Qed.

Lemma call_age_all_units_run h l a :
  h !! l = Some a →
  call_age_all_units l h = (inr (), <[l := _age_all_units a]> h).
Proof.
  intros Hl. unfold call_age_all_units.
  rewrite bind_run, (read_run _ _ _ Hl). reflexivity.
Qed.

Lemma gold_add_run h l a n :
  h !! l = Some a →
  gold_add l n h = (inr (), <[l := set_gold (gold a + n) a]> h).
Proof.
  intros Hl. unfold gold_add.
  rewrite bind_run, (read_run _ _ _ Hl). reflexivity.
Qed.

Lemma battle_record_append_run h l a r :
  h !! l = Some a →
  battle_record_append l r h
  = (inr (), <[l := set_battle_record (battle_record a ++ [r]) a]> h).
Proof.
  intros Hl. unfold battle_record_append.
  rewrite bind_run, (read_run _ _ _ Hl). reflexivity.
Qed.

End Running.

(** C3: [train_unit] called on an army of the heap returns without raising;
    it returns [True] exactly when the index lies in [0, roster size) and
    the gold covers the indexed unit's training cost.  On [True] the gold
    goes down by that cost and the indexed unit gains its training gain in
    strength, everything else being as before; on [False] the army, and the
    whole heap, are as before. *)
Theorem train_unit_correct (h : gmap nat Army) (l : nat) (a : Army) (i : Z) :
  h !! l = Some a →
  ∃ b a',
    call_train_unit l i h = (inr b, <[l := a']> h) ∧
    (b = true ↔
       0 ≤ i < Z.of_nat (length (units a)) ∧
       ∃ u, units a !! Z.to_nat i = Some u ∧ training_cost u ≤ gold a) ∧
    (b = true →
       ∃ u, units a !! Z.to_nat i = Some u ∧
         a' = {| civilization := civilization a;
                 gold := gold a - training_cost u;
                 units := <[Z.to_nat i :=
                            {| cls := cls u; unit_type := unit_type u;
                               strength := strength u + training_gain u;
                               years_of_life := years_of_life u;
                               training_cost := training_cost u;
                               training_gain := training_gain u |}]> (units a);
                 battle_record := battle_record a |}) ∧
    (b = false → a' = a ∧ <[l := a']> h = h).
Proof.
  intros Hl.
  destruct (decide (0 ≤ i < Z.of_nat (length (units a)))) as [Hi|Hi].
  - destruct (in_bounds_lookup _ _ Hi) as [u Hu].
    pose proof (train_unit_in_bounds i a u (proj1 Hi) Hu) as Ht.
    destruct (Z.geb_spec (gold a) (training_cost u)) as [Hg|Hg].
    + eexists true, _. split; [by eapply call_train_unit_run|].
      split; [|split; [|done]].
      * split; [|done]. intros _. split; [done|]. exists u. split; [done|lia].
      * intros _. exists u. split; [done|]. reflexivity.
    + exists false, a. split; [by eapply call_train_unit_run|].
      split; [|split; [done|]].
      * split; [done|]. intros (_ & u' & Hu' & Hc). simplify_eq. lia.
      * intros _. split; [done|]. by apply insert_id.
  - exists false, a. split.
    + eapply call_train_unit_run; [done|]. by apply train_unit_out_of_bounds.
    + split; [|split; [done|]].
      * split; [done|]. by intros [? _].
      * intros _. split; [done|]. by apply insert_id.
Qed.

Lemma train_unit_correct_witness :
  ∃ b a',
    call_train_unit 0 0 {[ 0%nat := mkArmy "x" 10 [Pikeman] [] ]}
    = (inr b, <[0%nat := a']> {[ 0%nat := mkArmy "x" 10 [Pikeman] [] ]}) ∧
    b = true ∧ gold a' = 0 ∧ (strength <$> units a') = [8].
Proof.
  destruct (train_unit_correct {[ 0%nat := mkArmy "x" 10 [Pikeman] [] ]} 0
              (mkArmy "x" 10 [Pikeman] []) 0) as (b & a' & Hrun & Hiff & Hok & _).
  { reflexivity. }
  assert (Hb : b = true).
  { apply Hiff. split; [simpl; lia|]. exists Pikeman. split; [reflexivity|].
    simpl. lia. }
  destruct (Hok Hb) as (u & Hu & Ha'). injection Hu as <-.
  exists b, a'. rewrite Ha' at 2 3. done.
Defined.

Section Transformation.

Lemma transform_rule_Some c target cost c' :
  transform_rule c target = Some (cost, c') ↔
    (c = PikemanClass ∧ target = "archer" ∧ cost = 30 ∧ c' = ArcherClass) ∨
    (c = ArcherClass ∧ target = "knight" ∧ cost = 40 ∧ c' = KnightClass).
Proof.
  unfold transform_rule. split.
  - destruct c; [| |done].
    + destruct (String.eqb_spec target "archer"); [|done].
      intros [= <- <-]. left. done.
    + destruct (String.eqb_spec target "knight"); [|done].
      intros [= <- <-]. right. done.
  - intros [(-> & -> & -> & ->)|(-> & -> & -> & ->)]; reflexivity.
Qed.

Lemma transform_unit_result i ty a :
  ∃ b a', transform_unit i ty a = inr (b, a') ∧
    (b = true ↔
       0 ≤ i < Z.of_nat (length (units a)) ∧
       ∃ u cost c, units a !! Z.to_nat i = Some u ∧
         transform_rule (cls u) (lower ty) = Some (cost, c) ∧ cost ≤ gold a) ∧
    (b = true →
       ∃ u cost c, units a !! Z.to_nat i = Some u ∧
         transform_rule (cls u) (lower ty) = Some (cost, c) ∧
         a' = set_units (<[Z.to_nat i := transformed u c]> (units a))
                        (set_gold (gold a - cost) a)) ∧
    (b = false → a' = a).
Proof.
  destruct (decide (0 ≤ i < Z.of_nat (length (units a)))) as [Hi|Hi].
  - destruct (in_bounds_lookup _ _ Hi) as [u Hu].
    rewrite (transform_unit_in_bounds i ty a u (proj1 Hi) Hu).
    destruct (transform_rule (cls u) (lower ty)) as [[cost c]|] eqn:Hr.
    + destruct (Z.geb_spec (gold a) cost) as [Hg|Hg].
      * eexists true, _. split; [done|]. split; [|split; [|done]].
        -- split; [|done]. intros _. split; [done|]. exists u, cost, c.
           repeat split; [done..|lia].
        -- intros _. by exists u, cost, c.
      * exists false, a. split; [done|]. split; [|done].
        split; [done|]. intros (_ & u' & cost' & c' & Hu' & Hr' & Hc).
        simplify_eq. lia.
    + exists false, a. split; [done|]. split; [|done].
      split; [done|]. intros (_ & u' & cost' & c' & Hu' & Hr' & Hc).
      simplify_eq.
  - exists false, a. split; [by apply transform_unit_out_of_bounds|].
    split; [|done]. split; [done|]. by intros [? _].
Qed.

End Transformation.

(** C4: [transform_unit] called on an army of the heap returns without
    raising.  It returns [True] exactly when the index is in bounds, the
    pair (class of the indexed unit, target lower-cased as [str.lower]
    does) is Pikeman to "archer" or Archer to "knight", and the gold
    covers the cost of that edge, 30 or 40.  On [True] the cost is deducted and the roster slot
    holds a unit of the target class with the target's base strength plus
    the old unit's bonus over its own base strength, and with the old
    unit's age; on [False] the army and the heap are as before. *)
Theorem transform_unit_correct (h : gmap nat Army) (l : nat) (a : Army)
    (i : Z) (ty : string) :
  h !! l = Some a →
  ∃ b a',
    call_transform_unit l i ty h = (inr b, <[l := a']> h) ∧
    (b = true ↔
       0 ≤ i < Z.of_nat (length (units a)) ∧
       ∃ u, units a !! Z.to_nat i = Some u ∧
         ((cls u = PikemanClass ∧ lower ty = "archer" ∧ 30 ≤ gold a) ∨
          (cls u = ArcherClass ∧ lower ty = "knight" ∧ 40 ≤ gold a))) ∧
    (b = true →
       ∃ u cost c, units a !! Z.to_nat i = Some u ∧
         ((cls u = PikemanClass ∧ c = ArcherClass ∧ cost = 30) ∨
          (cls u = ArcherClass ∧ c = KnightClass ∧ cost = 40)) ∧
         a' = {| civilization := civilization a;
                 gold := gold a - cost;
                 units := <[Z.to_nat i :=
                            {| cls := c;
                               unit_type := unit_type (fresh_unit c);
                               strength := base_strength c
                                 + (strength u - base_strength (cls u));
                               years_of_life := years_of_life u;
                               training_cost := training_cost (fresh_unit c);
                               training_gain := training_gain (fresh_unit c)
                            |}]> (units a);
                 battle_record := battle_record a |}) ∧
    (b = false → a' = a ∧ <[l := a']> h = h).
Proof.
  intros Hl.
  destruct (transform_unit_result i ty a) as (b & a' & Ht & Hiff & Hok & Hno).
  exists b, a'. split; [by eapply call_transform_unit_run|].
  split; [|split].
  - rewrite Hiff. split.
    + intros (Hi & u & cost & c & Hu & Hr & Hg). split; [done|]. exists u.
      split; [done|].
      apply transform_rule_Some in Hr
        as [(? & ? & -> & _)|(? & ? & -> & _)]; [left|right]; done.
    + intros (Hi & u & Hu & [(Hc & Hty & Hg)|(Hc & Hty & Hg)]); (split; [done|]).
      * exists u, 30, ArcherClass. rewrite Hc, Hty. done.
      * exists u, 40, KnightClass. rewrite Hc, Hty. done.
  - intros Hb. destruct (Hok Hb) as (u & cost & c & Hu & Hr & ->).
    exists u, cost, c. split; [done|]. split; [|done].
    apply transform_rule_Some in Hr
      as [(? & _ & -> & ->)|(? & _ & -> & ->)]; [left|right]; done.
  - intros Hb. rewrite (Hno Hb). split; [done|]. by apply insert_id.
Qed.

Lemma transform_unit_correct_witness :
  ∃ b a',
    call_transform_unit 0 0 "Archer" {[ 0%nat := mkArmy "x" 30 [Pikeman] [] ]}
    = (inr b, <[0%nat := a']> {[ 0%nat := mkArmy "x" 30 [Pikeman] [] ]}) ∧
    b = true ∧ gold a' = 0 ∧ (cls <$> units a') = [ArcherClass].
Proof.
  destruct (transform_unit_correct {[ 0%nat := mkArmy "x" 30 [Pikeman] [] ]} 0
              (mkArmy "x" 30 [Pikeman] []) 0 "Archer")
    as (b & a' & Hrun & Hiff & Hok & _).
  { reflexivity. }
  assert (Hb : b = true).
  { apply Hiff. split; [simpl; lia|]. exists Pikeman. split; [reflexivity|].
    left. repeat split. simpl. lia. }
  destruct (Hok Hb) as (u & cost & c & Hu & Hedge & Ha'). injection Hu as <-.
  destruct Hedge as [(_ & -> & ->)|(Hc & _)]; [|discriminate Hc].
  exists b, a'. rewrite Ha' at 2 3. done.
Defined.

Section Chain.

(** Transforming a pikeman of any strength to an archer and then to a
    knight keeps its bonus over the base strength. *)
Lemma transform_chain (h : gmap nat Army) (l : nat) (a : Army) (i : Z) (u : Unit) :
  h !! l = Some a → 0 ≤ i → units a !! Z.to_nat i = Some u →
  cls u = PikemanClass → 70 ≤ gold a →
  let u1 := transformed u ArcherClass in
  let u2 := transformed u1 KnightClass in
  let a1 := set_units (<[Z.to_nat i := u1]> (units a))
                      (set_gold (gold a - 30) a) in
  let a2 := set_units (<[Z.to_nat i := u2]> (units a))
                      (set_gold (gold a - 70) a) in
  call_transform_unit l i "archer" h = (inr true, <[l := a1]> h) ∧
  call_transform_unit l i "knight" (<[l := a1]> h) = (inr true, <[l := a2]> h) ∧
  strength u1 = strength u + 5 ∧ strength u2 = strength u + 15.
Proof.
  intros Hl Hi Hu Hc Hg u1 u2 a1 a2.
  assert (Hlen : (Z.to_nat i < length (units a))%nat)
    by (by eapply lookup_lt_Some).
  split; [|split].
  - eapply call_transform_unit_run; [done|].
    rewrite (transform_unit_in_bounds _ _ _ _ Hi Hu), Hc. simpl.
    destruct (Z.geb_spec (gold a) 30); [done|lia].
  - erewrite call_transform_unit_run; [|apply lookup_insert_eq|].
    2:{ rewrite (transform_unit_in_bounds i _ a1 u1 Hi).
        - simpl. destruct (Z.geb_spec (gold a - 30) 40); [done|lia].
        - simpl. by apply list_lookup_insert_eq. }
    rewrite insert_insert_eq. do 2 f_equal. unfold a2, set_units, set_gold.
    simpl. rewrite list_insert_insert_eq. f_equal. lia.
  - simpl. rewrite Hc. simpl. lia.
Qed.

End Chain.

(** C8: a pikeman of strength 11 (bonus 6 over the base 5), in an army whose
    gold covers both steps (30, then 40), becomes by [transform_unit] to
    "archer" an archer of strength 16 and by a following [transform_unit]
    to "knight" a knight of strength 26, in the same roster slot. *)
Theorem chained_transform_keeps_bonus (h : gmap nat Army) (l : nat)
    (a : Army) (i : Z) (u : Unit) :
  h !! l = Some a → 0 ≤ i → units a !! Z.to_nat i = Some u →
  cls u = PikemanClass → strength u = 11 → 70 ≤ gold a →
  ∃ a1 a2 u1 u2,
    call_transform_unit l i "archer" h = (inr true, <[l := a1]> h) ∧
    units a1 !! Z.to_nat i = Some u1 ∧
    cls u1 = ArcherClass ∧ strength u1 = 16 ∧
    call_transform_unit l i "knight" (<[l := a1]> h)
    = (inr true, <[l := a2]> h) ∧
    units a2 !! Z.to_nat i = Some u2 ∧
    cls u2 = KnightClass ∧ strength u2 = 26.
Proof.
  intros Hl Hi Hu Hc Hs Hg.
  destruct (transform_chain h l a i u Hl Hi Hu Hc Hg) as (H1 & H2 & Hs1 & Hs2).
  assert (Hlen : (Z.to_nat i < length (units a))%nat)
    by (by eapply lookup_lt_Some).
  eexists _, _, _, _. split; [exact H1|].
  split; [by apply list_lookup_insert_eq|].
  split; [done|]. split; [lia|].
  split; [exact H2|].
  split; [by apply list_lookup_insert_eq|].
  split; [done|lia].
Qed.

(** The pikeman of the witness: index 0 of a Chinese army, trained twice. *)
Lemma chained_transform_keeps_bonus_witness :
  ∃ a0 a a1 a2 u1 u2,
    Army_init "chinese" = inr a0 ∧
    (call_train_unit 0 0 ;; call_train_unit 0 0) {[ 0%nat := a0 ]}
    = (inr true, {[ 0%nat := a ]}) ∧
    call_transform_unit 0 0 "archer" {[ 0%nat := a ]}
    = (inr true, <[0%nat := a1]> {[ 0%nat := a ]}) ∧
    units a1 !! 0%nat = Some u1 ∧ cls u1 = ArcherClass ∧ strength u1 = 16 ∧
    call_transform_unit 0 0 "knight" (<[0%nat := a1]> {[ 0%nat := a ]})
    = (inr true, <[0%nat := a2]> {[ 0%nat := a ]}) ∧
    units a2 !! 0%nat = Some u2 ∧ cls u2 = KnightClass ∧ strength u2 = 26.
Proof.
  eexists _, _. 
  pose (a := mkArmy "chinese" 980
               (train (train Pikeman) :: replicate 1 Pikeman
                ++ replicate 25 Archer ++ replicate 2 Knight) []).
  destruct (chained_transform_keeps_bonus {[ 0%nat := a ]} 0 a 0
              (train (train Pikeman)))
    as (a1 & a2 & u1 & u2 & H); try reflexivity; try (simpl; lia).
  exists a1, a2, u1, u2. split; [reflexivity|]. split; [reflexivity|]. exact H.
Defined.

(** * Removal of the strongest units *)

Section Removal.

Implicit Types (u v best : Unit) (us : list Unit).

(** The unit selected by the scan of [max], by position: nothing in the
    roster is stronger, and everything before it is strictly weaker. *)
Lemma max_from_first best us :
  ∃ i, (best :: us) !! i = Some (max_from best us) ∧
    (∀ v, v ∈ best :: us → strength v ≤ strength (max_from best us)) ∧
    (∀ j v, (best :: us) !! j = Some v → (j < i)%nat →
            strength v < strength (max_from best us)).
Proof.
  revert best. induction us as [|u us IH]; intros best; simpl.
  - exists 0%nat. split; [done|]. split.
    + intros v Hv. apply list_elem_of_singleton in Hv as ->. lia.
    + intros j v _ Hj. lia.
  - destruct (Z.gtb_spec (strength u) (strength best)) as [Hgt|Hle].
    + destruct (IH u) as (i & Hi & Hall & Hbefore).
      assert (strength u ≤ strength (max_from u us)) by (apply Hall; left).
      exists (S i). split; [done|]. split.
      * intros v Hv. apply elem_of_cons in Hv as [->|Hv]; [lia|by apply Hall].
      * intros [|j] v Hv Hj; simpl in Hv.
        -- injection Hv as <-. lia.
        -- apply (Hbefore j); [done|lia].
    + destruct (IH best) as (i & Hi & Hall & Hbefore).
      assert (strength best ≤ strength (max_from best us)) by (apply Hall; left).
      destruct i as [|i]; simpl in Hi.
      * injection Hi as Hi. exists 0%nat. rewrite <- Hi. split; [done|]. split.
        -- intros v Hv. apply elem_of_cons in Hv as [->|Hv]; [lia|].
           apply elem_of_cons in Hv as [->|Hv]; [lia|].
           rewrite Hi. apply Hall. by right.
        -- intros j v _ Hj. lia.
      * exists (S (S i)). split; [done|]. split.
        -- intros v Hv. apply elem_of_cons in Hv as [->|Hv]; [lia|].
           apply elem_of_cons in Hv as [->|Hv]; [lia|].
           apply Hall. by right.
        -- assert (strength best < strength (max_from best us))
             by (apply (Hbefore 0%nat); [done|lia]).
           intros [|[|j]] v Hv Hj; simpl in Hv.
           ++ injection Hv as <-. lia.
           ++ injection Hv as <-. lia.
           ++ apply (Hbefore (S j)); [done|lia].
Qed.

Lemma max_strength_cons u v us :
  max_strength (u :: v :: us) = Z.max (strength u) (max_strength (v :: us)).
Proof. reflexivity. Qed.

Lemma max_strength_upper us v : v ∈ us → strength v ≤ max_strength us.
Proof.
  induction us as [|u [|w us] IH]; intros Hv.
  - by apply elem_of_nil in Hv.
  - apply list_elem_of_singleton in Hv as ->. simpl. lia.
  - rewrite max_strength_cons.
    apply elem_of_cons in Hv as [->|Hv]; [lia|]. specialize (IH Hv). lia.
Qed.

Lemma max_strength_attained us :
  us ≠ [] → ∃ v, v ∈ us ∧ strength v = max_strength us.
Proof.
  induction us as [|u [|w us] IH]; intros Hne; [done| |].
  - exists u. split; [by left|done].
  - destruct IH as (v & Hv & Hs); [done|]. rewrite max_strength_cons.
    destruct (Z.max_spec (strength u) (max_strength (w :: us)))
      as [[_ ->]|[_ ->]].
    + exists v. split; [by right|done].
    + exists u. split; [by left|done].
Qed.

Lemma max_from_strength best us :
  strength (max_from best us) = max_strength (best :: us).
Proof.
  destruct (max_from_first best us) as (i & Hi & Hall & _).
  destruct (max_strength_attained (best :: us)) as (v & Hv & Hs); [done|].
  apply Z.le_antisymm.
  - apply max_strength_upper. by eapply list_elem_of_lookup_2.
  - rewrite <- Hs. by apply Hall.
Qed.

(** The position the specification names is the one [max] selects. *)
Lemma first_strongest_max_from best us :
  ∃ i, first_strongest (best :: us) = Some i ∧
       (best :: us) !! i = Some (max_from best us) ∧
       (∀ j v, (best :: us) !! j = Some v → (j < i)%nat →
               v ≠ max_from best us).
Proof.
  destruct (max_from_first best us) as (i & Hi & Hall & Hbefore).
  exists i. split; [|split; [done|]].
  - unfold first_strongest.
    assert (list_find (λ u, strength u = max_strength (best :: us)) (best :: us)
            = Some (i, max_from best us)) as ->; [|done].
    apply list_find_Some. split; [done|]. split.
    + apply max_from_strength.
    + intros j y Hy Hj. rewrite <- max_from_strength.
      specialize (Hbefore j y Hy Hj). lia.
  - intros j v Hv Hj ->. specialize (Hbefore j _ Hv Hj). lia.
Qed.

(** [first_strongest] read in plain terms. *)
Lemma first_strongest_Some us i :
  first_strongest us = Some i ↔
  ∃ u, us !! i = Some u ∧
    (∀ v, v ∈ us → strength v ≤ strength u) ∧
    (∀ j v, us !! j = Some v → (j < i)%nat → strength v < strength u).
Proof.
  unfold first_strongest. rewrite fmap_Some. split.
  - intros ([i' u] & Hfind & ->). simpl. exists u.
    apply list_find_Some in Hfind as (Hu & Hmax & Hbefore).
    split; [done|]. rewrite Hmax. split.
    + apply max_strength_upper.
    + intros j v Hv Hj.
      pose proof (max_strength_upper us v (list_elem_of_lookup_2 _ _ _ Hv)).
      specialize (Hbefore j v Hv Hj). lia.
  - intros (u & Hu & Hall & Hbefore). exists (i, u). split; [|done].
    assert (Hne : us ≠ []) by (intros ->; done).
    destruct (max_strength_attained us Hne) as (w & Hw & Hs).
    assert (Hmax : strength u = max_strength us).
    { apply Z.le_antisymm.
      - apply max_strength_upper. by eapply list_elem_of_lookup_2.
      - rewrite <- Hs. by apply Hall. }
    apply list_find_Some. split; [done|]. split; [done|].
    intros j y Hy Hj. specialize (Hbefore j y Hy Hj). lia.
Qed.

(** [list.remove] deletes the position of [x] when no earlier element is
    equal to it. *)
Lemma list_remove_first x us i :
  us !! i = Some x →
  (∀ j y, us !! j = Some y → (j < i)%nat → y ≠ x) →
  list_remove x us = inr (delete i us).
Proof.
  revert i. induction us as [|u us IH]; intros i Hi Hbefore; [done|].
  destruct i as [|i]; simpl in *.
  - injection Hi as ->. by rewrite decide_True.
  - rewrite decide_False by (apply (Hbefore 0%nat); [done|lia]).
    rewrite (IH i Hi); [done|].
    intros j y Hy Hj. apply (Hbefore (S j)); [done|lia].
Qed.

(** One iteration of the loop removes the unit at the position the
    specification names; it does not raise on a non-empty roster. *)
Lemma remove_strongest_once_delete us :
  us ≠ [] → remove_strongest_once us = inr (remove_first_strongest us).
Proof.
  destruct us as [|best us]; [done|]. intros _.
  destruct (first_strongest_max_from best us) as (i & Hfirst & Hi & Hbefore).
  unfold remove_strongest_once, remove_first_strongest. rewrite Hfirst. simpl.
  change (list_remove (max_from best us) (best :: us)
          = inr (delete i (best :: us))).
  by apply list_remove_first.
Qed.

Lemma remove_first_strongest_nil : remove_first_strongest [] = [].
Proof. reflexivity. Qed.

Lemma remove_first_strongest_length us :
  length (remove_first_strongest us) = (length us - 1)%nat.
Proof.
  destruct us as [|best us]; [done|].
  destruct (first_strongest_max_from best us) as (i & Hfirst & Hi & _).
  unfold remove_first_strongest. rewrite Hfirst.
  apply length_delete. by eexists.
Qed.

Lemma remove_first_strongest_sublist us :
  remove_first_strongest us `sublist_of` us.
Proof.
  unfold remove_first_strongest. destruct (first_strongest us); [|done].
  apply sublist_delete.
Qed.

Lemma strongest_removed_nil n : strongest_removed n [] = [].
Proof. induction n; simpl; by rewrite ?remove_first_strongest_nil. Qed.

Lemma strongest_removed_length n us :
  length (strongest_removed n us) = (length us - n `min` length us)%nat.
Proof.
  revert us. induction n as [|n IH]; intros us; cbn [strongest_removed]; [lia|].
  rewrite IH, remove_first_strongest_length. lia.
Qed.

Lemma strongest_removed_sublist n us :
  strongest_removed n us `sublist_of` us.
Proof.
  revert us. induction n as [|n IH]; intros us; simpl; [done|].
  etrans; [apply IH|apply remove_first_strongest_sublist].
Qed.

Lemma strongest_removed_add n m us :
  strongest_removed m (strongest_removed n us) = strongest_removed (n + m) us.
Proof. revert us. induction n as [|n IH]; intros us; simpl; [done|apply IH]. Qed.

Lemma strongest_removed_min n us :
  strongest_removed (n `min` length us) us = strongest_removed n us.
Proof.
  revert us. induction n as [|n IH]; intros us; [done|].
  destruct us as [|u us]; [by rewrite !strongest_removed_nil|].
  change (S n `min` length (u :: us))%nat with (S (n `min` length us)).
  cbn [strongest_removed].
  rewrite <- (IH (remove_first_strongest (u :: us))).
  rewrite remove_first_strongest_length. simpl. by rewrite Nat.sub_0_r.
Qed.

(** The loop does not raise as long as it runs no longer than the roster. *)
Lemma remove_strongest_loop_spec n us :
  (n ≤ length us)%nat →
  remove_strongest_loop n us = inr (strongest_removed n us).
Proof.
  revert us. induction n as [|n IH]; intros us Hn; [done|]. simpl.
  rewrite remove_strongest_once_delete by (intros ->; simpl in Hn; lia).
  simpl. apply IH. rewrite remove_first_strongest_length. lia.
Qed.

(** [remove_strongest_units] never raises and implements the policy. *)
Lemma remove_strongest_units_spec count a :
  remove_strongest_units count a
  = inr (set_units (strongest_removed (Z.to_nat count) (units a)) a).
Proof.
  unfold remove_strongest_units. destruct (units a) as [|u us] eqn:Hus.
  - rewrite strongest_removed_nil. destruct a; simpl in *. by rewrite Hus.
  - rewrite Z2Nat.inj_min, Nat2Z.id.
    rewrite remove_strongest_loop_spec by apply Nat.le_min_r.
    rewrite strongest_removed_min. reflexivity.
Qed.

End Removal.

(** * Battles *)

Section Attack.

Implicit Types (h : gmap nat Army) (s o a : Army).

(** The objects at [self] and [other_army], made explicit in the heap. *)
Lemma two_cells h self other_army s o :
  h !! self = Some s → h !! other_army = Some o →
  h = <[other_army := o]> (<[self := s]> h).
Proof. intros Hs Ho. by rewrite (insert_id h self), (insert_id h other_army). Qed.

Section Distinct.

Variables (self other_army : nat).
Hypothesis distinct : self ≠ other_army.

Lemma on_self (m : M ()) (f : Army → Army) h s o :
  (∀ h' a, h' !! self = Some a → m h' = (inr (), <[self := f a]> h')) →
  m (<[other_army := o]> (<[self := s]> h))
  = (inr (), <[other_army := o]> (<[self := f s]> h)).
Proof.
  intros Hm. rewrite (Hm _ s).
  - by rewrite insert_insert_ne, insert_insert_eq.
  - by rewrite lookup_insert_ne, lookup_insert_eq.
Qed.

Lemma on_other (m : M ()) (f : Army → Army) h s o :
  (∀ h' a, h' !! other_army = Some a →
           m h' = (inr (), <[other_army := f a]> h')) →
  m (<[other_army := o]> (<[self := s]> h))
  = (inr (), <[other_army := f o]> (<[self := s]> h)).
Proof.
  intros Hm. rewrite (Hm _ o).
  - by rewrite insert_insert_eq.
  - by rewrite lookup_insert_eq.
Qed.

End Distinct.

Lemma call_remove_strongest_units_run' h l a n :
  h !! l = Some a →
  call_remove_strongest_units l n h
  = (inr (), <[l := set_units (strongest_removed (Z.to_nat n) (units a)) a]> h).
Proof.
  intros Hl. eapply call_remove_strongest_units_run; [done|].
  apply remove_strongest_units_spec.
Qed.

Lemma nonempty_guard (us : list Unit) : us ≠ [] → bool_decide (us = []) = false.
Proof. intros. by apply bool_decide_eq_false. Qed.

(** The first guard: an attacker without units. *)
Lemma attack_no_units h self other_army s :
  h !! self = Some s → units s = [] →
  attack self other_army h = (inr "no_units", h).
Proof.
  intros Hs He. unfold attack. rewrite bind_run, (read_run _ _ _ Hs), He.
  reflexivity.
Qed.

(** The second guard: a target without units. *)
Lemma attack_no_target h self other_army s o :
  h !! self = Some s → units s ≠ [] →
  h !! other_army = Some o → units o = [] →
  attack self other_army h = (inr "no_target", h).
Proof.
  intros Hs Hne Ho He. unfold attack.
  rewrite bind_run, (read_run _ _ _ Hs), (nonempty_guard _ Hne).
  rewrite bind_run, (read_run _ _ _ Ho), He. reflexivity.
Qed.

(** A battle between two different armies. *)
Lemma attack_distinct h self other_army s o :
  self ≠ other_army →
  h !! self = Some s → h !! other_army = Some o →
  units s ≠ [] → units o ≠ [] →
  let our := get_total_strength s in
  let enemy := get_total_strength o in
  let res := battle_result our enemy in
  attack self other_army h
  = (inr res,
     <[other_army := after_battle o (civilization s) enemy our
                       (mirrored_result res)]>
       (<[self := after_battle s (civilization o) our enemy res]> h)).
Proof.
  intros Hne Hs Ho Hsu Hou our enemy res. unfold attack.
  rewrite bind_run, (read_run _ _ _ Hs), (nonempty_guard _ Hsu).
  rewrite bind_run, (read_run _ _ _ Ho), (nonempty_guard _ Hou).
  rewrite (two_cells h self other_army s o Hs Ho) at 1.
  fold our enemy. unfold res, battle_result.
  rewrite bind_run.
  destruct (our >? enemy) eqn:Hgt; [|destruct (enemy >? our) eqn:Hlt].
  - rewrite bind_run, (on_self _ _ Hne _ _ _ _ _ (λ h' a, gold_add_run h' self a 100)).
    rewrite bind_run,
      (on_other _ _ _ _ _ _ _
         (λ h' a, call_remove_strongest_units_run' h' other_army a 2)).
    cbn [mret M_ret].
    rewrite bind_run, (on_self _ _ Hne _ _ _ _ _ (λ h' a, call_age_all_units_run h' self a)).
    rewrite bind_run, (on_other _ _ _ _ _ _ _ (λ h' a, call_age_all_units_run h' other_army a)).
    rewrite bind_run, (on_self _ _ Hne _ _ _ _ _ (λ h' a, battle_record_append_run h' self a _)).
    rewrite bind_run, (on_other _ _ _ _ _ _ _ (λ h' a, battle_record_append_run h' other_army a _)).
    reflexivity.
  - rewrite bind_run, (on_other _ _ _ _ _ _ _ (λ h' a, gold_add_run h' other_army a 100)).
    rewrite bind_run,
      (on_self _ _ Hne _ _ _ _ _
         (λ h' a, call_remove_strongest_units_run' h' self a 2)).
    cbn [mret M_ret].
    rewrite bind_run, (on_self _ _ Hne _ _ _ _ _ (λ h' a, call_age_all_units_run h' self a)).
    rewrite bind_run, (on_other _ _ _ _ _ _ _ (λ h' a, call_age_all_units_run h' other_army a)).
    rewrite bind_run, (on_self _ _ Hne _ _ _ _ _ (λ h' a, battle_record_append_run h' self a _)).
    rewrite bind_run, (on_other _ _ _ _ _ _ _ (λ h' a, battle_record_append_run h' other_army a _)).
    reflexivity.
  - rewrite bind_run,
      (on_self _ _ Hne _ _ _ _ _
         (λ h' a, call_remove_strongest_units_run' h' self a 1)).
    rewrite bind_run,
      (on_other _ _ _ _ _ _ _
         (λ h' a, call_remove_strongest_units_run' h' other_army a 1)).
    cbn [mret M_ret].
    rewrite bind_run, (on_self _ _ Hne _ _ _ _ _ (λ h' a, call_age_all_units_run h' self a)).
    rewrite bind_run, (on_other _ _ _ _ _ _ _ (λ h' a, call_age_all_units_run h' other_army a)).
    rewrite bind_run, (on_self _ _ Hne _ _ _ _ _ (λ h' a, battle_record_append_run h' self a _)).
    rewrite bind_run, (on_other _ _ _ _ _ _ _ (λ h' a, battle_record_append_run h' other_army a _)).
    reflexivity.
Qed.

End Attack.

Section SelfAttack.

Lemma on_cell (l : nat) (m : M ()) (f : Army → Army) (h : gmap nat Army) a :
  (∀ h' a', h' !! l = Some a' → m h' = (inr (), <[l := f a']> h')) →
  m (<[l := a]> h) = (inr (), <[l := f a]> h).
Proof.
  intros Hm. rewrite (Hm _ a).
  - by rewrite insert_insert_eq.
  - by rewrite lookup_insert_eq.
Qed.

(** An army attacking itself: the strengths are equal, so the draw branch
    runs, and each of its two removals, each of the two ageing passes and
    each of the two appends acts on the one army. *)
Lemma attack_self (h : gmap nat Army) (l : nat) (s : Army) :
  h !! l = Some s → units s ≠ [] →
  let t := get_total_strength s in
  let r := {| opponent := civilization s; our_strength := t;
              enemy_strength := t; result := "draw" |} in
  attack l l h
  = (inr "draw",
     <[l := {| civilization := civilization s;
               gold := gold s;
               units := age <$> (age <$> strongest_removed 2 (units s));
               battle_record := (battle_record s ++ [r]) ++ [r] |}]> h).
Proof.
  intros Hs Hsu t r. unfold attack.
  rewrite bind_run, (read_run _ _ _ Hs), (nonempty_guard _ Hsu).
  rewrite bind_run, (read_run _ _ _ Hs), (nonempty_guard _ Hsu).
  rewrite <- (insert_id h l s Hs) at 1.
  fold t. rewrite Z.gtb_ltb, Z.ltb_irrefl.
  rewrite bind_run, bind_run,
    (on_cell _ _ _ _ _ (λ h' a, call_remove_strongest_units_run' h' l a 1)).
  rewrite bind_run,
    (on_cell _ _ _ _ _ (λ h' a, call_remove_strongest_units_run' h' l a 1)).
  cbn [mret M_ret].
  rewrite bind_run, (on_cell _ _ _ _ _ (λ h' a, call_age_all_units_run h' l a)).
  rewrite bind_run, (on_cell _ _ _ _ _ (λ h' a, call_age_all_units_run h' l a)).
  rewrite bind_run, (on_cell _ _ _ _ _ (λ h' a, battle_record_append_run h' l a _)).
  rewrite bind_run, (on_cell _ _ _ _ _ (λ h' a, battle_record_append_run h' l a _)).
  reflexivity.
Qed.

End SelfAttack.

(** C5: [attack] by an army without units returns ["no_units"], and
    [attack] by an army with units on an army without units returns
    ["no_target"]; in both cases the heap, hence every field of every army,
    is left as it was. *)
Theorem attack_empty_roster_guards (h : gmap nat Army) (self other_army : nat)
    (s : Army) :
  h !! self = Some s →
  (units s = [] → attack self other_army h = (inr "no_units", h)) ∧
  (∀ o, units s ≠ [] → h !! other_army = Some o → units o = [] →
        attack self other_army h = (inr "no_target", h)).
Proof.
  intros Hs. split.
  - by apply attack_no_units.
  - intros o Hne Ho He. by eapply attack_no_target.
Qed.

Lemma attack_empty_roster_guards_witness :
  attack 0 1 {[ 0%nat := mkArmy "a" 1000 [] []; 1%nat := mkArmy "b" 1000 [Knight] [] ]}
  = (inr "no_units",
     {[ 0%nat := mkArmy "a" 1000 [] []; 1%nat := mkArmy "b" 1000 [Knight] [] ]}) ∧
  attack 1 0 {[ 0%nat := mkArmy "a" 1000 [] []; 1%nat := mkArmy "b" 1000 [Knight] [] ]}
  = (inr "no_target",
     {[ 0%nat := mkArmy "a" 1000 [] []; 1%nat := mkArmy "b" 1000 [Knight] [] ]}).
Proof.
  set (h := {[ 0%nat := mkArmy "a" 1000 [] [];
               1%nat := mkArmy "b" 1000 [Knight] [] ]} : gmap nat Army).
  split.
  - apply (attack_empty_roster_guards h 0%nat 1%nat (mkArmy "a" 1000 [] []));
      reflexivity.
  - assert (Hb : h !! 1%nat = Some (mkArmy "b" 1000 [Knight] []))
      by reflexivity.
    apply (proj2 (attack_empty_roster_guards h 1%nat 0%nat _ Hb)
             (mkArmy "a" 1000 [] []));
      [discriminate|reflexivity|reflexivity].
Defined.

Section Outcome.

Lemma battle_result_victory our enemy :
  enemy < our → battle_result our enemy = "victory".
Proof.
  intros H. unfold battle_result.
  destruct (Z.gtb_spec our enemy); [done|lia].
Qed.

Lemma battle_result_defeat our enemy :
  our < enemy → battle_result our enemy = "defeat".
Proof.
  intros H. unfold battle_result.
  destruct (Z.gtb_spec our enemy); [lia|].
  destruct (Z.gtb_spec enemy our); [done|lia].
Qed.

Lemma battle_result_draw our enemy :
  our = enemy → battle_result our enemy = "draw".
Proof.
  intros H. unfold battle_result.
  destruct (Z.gtb_spec our enemy); [lia|].
  destruct (Z.gtb_spec enemy our); [lia|done].
Qed.

Lemma battle_result_cases our enemy :
  (enemy < our ∧ battle_result our enemy = "victory") ∨
  (our < enemy ∧ battle_result our enemy = "defeat") ∨
  (our = enemy ∧ battle_result our enemy = "draw").
Proof.
  destruct (Z.lt_trichotomy our enemy) as [H|[H|H]].
  - right. left. by rewrite battle_result_defeat.
  - right. right. by rewrite battle_result_draw.
  - left. by rewrite battle_result_victory.
Qed.

(** The removal policy, step by step: nothing is removed in zero steps or
    from an empty roster; otherwise a step deletes the first position
    holding the greatest strength and the policy goes on with the rest. *)
Lemma strongest_removed_policy n (us : list Unit) :
  strongest_removed 0 us = us ∧
  strongest_removed n [] = [] ∧
  length (strongest_removed n us) = (length us - n `min` length us)%nat ∧
  (us ≠ [] →
   ∃ i u, us !! i = Some u ∧
     (∀ v, v ∈ us → strength v ≤ strength u) ∧
     (∀ j v, us !! j = Some v → (j < i)%nat → strength v < strength u) ∧
     strongest_removed (S n) us = strongest_removed n (delete i us)).
Proof.
  split; [done|]. split; [apply strongest_removed_nil|].
  split; [apply strongest_removed_length|].
  intros Hne. destruct us as [|best us]; [done|].
  destruct (first_strongest_max_from best us) as (i & Hfirst & Hi & _).
  pose proof Hfirst as (u & Hu & Hall & Hbefore)%first_strongest_Some.
  exists i, u. repeat split; [done..|].
  cbn [strongest_removed]. unfold remove_first_strongest. by rewrite Hfirst.
Qed.

End Outcome.

(** C1 (for two different armies): when [attack] is called on another army
    and both rosters are non-empty, the stronger side gains exactly 100
    gold and the weaker side loses its two strongest units; on equal
    strengths no gold changes and each side loses its one strongest unit.
    Removal takes up to [n] units, each time the first unit in roster order
    whose strength is maximal.  (The rosters are given as they are after
    the call, that is with the survivors aged.) *)
Theorem attack_gold_and_losses (h : gmap nat Army) (self other_army : nat)
    (s o : Army) :
  self ≠ other_army →
  h !! self = Some s → h !! other_army = Some o →
  units s ≠ [] → units o ≠ [] →
  ∃ res s' o',
    attack self other_army h
    = (inr res, <[other_army := o']> (<[self := s']> h)) ∧
    (get_total_strength o < get_total_strength s →
       gold s' = gold s + 100 ∧ gold o' = gold o ∧
       units s' = age <$> units s ∧
       units o' = age <$> strongest_removed 2 (units o)) ∧
    (get_total_strength s < get_total_strength o →
       gold o' = gold o + 100 ∧ gold s' = gold s ∧
       units o' = age <$> units o ∧
       units s' = age <$> strongest_removed 2 (units s)) ∧
    (get_total_strength s = get_total_strength o →
       gold s' = gold s ∧ gold o' = gold o ∧
       units s' = age <$> strongest_removed 1 (units s) ∧
       units o' = age <$> strongest_removed 1 (units o)) ∧
    (∀ n (us : list Unit),
       strongest_removed 0 us = us ∧
       strongest_removed n [] = [] ∧
       length (strongest_removed n us) = (length us - n `min` length us)%nat ∧
       (us ≠ [] →
        ∃ i u, us !! i = Some u ∧
          (∀ v, v ∈ us → strength v ≤ strength u) ∧
          (∀ j v, us !! j = Some v → (j < i)%nat → strength v < strength u) ∧
          strongest_removed (S n) us = strongest_removed n (delete i us))).
Proof.
  intros Hne Hs Ho Hsu Hou.
  eexists _, _, _. split; [by apply attack_distinct|].
  split; [|split; [|split]].
  - intros H. rewrite (battle_result_victory _ _ H). done.
  - intros H. rewrite (battle_result_defeat _ _ H). done.
  - intros H. rewrite (battle_result_draw _ _ H). done.
  - apply strongest_removed_policy.
Qed.

Lemma attack_gold_and_losses_witness :
  ∃ res s' o',
    attack 0 1 {[ 0%nat := english; 1%nat := chinese ]}
    = (inr res, <[1%nat := o']> (<[0%nat := s']> {[ 0%nat := english; 1%nat := chinese ]})) ∧
    gold s' = 1100 ∧ gold o' = 1000 ∧
    length (units s') = 30%nat ∧ length (units o') = 27%nat ∧
    get_total_strength o' = 260.
Proof.
  destruct (attack_gold_and_losses {[ 0%nat := english; 1%nat := chinese ]}
              0 1 english chinese)
    as (res & s' & o' & Hrun & Hwin & _);
    [done|reflexivity|reflexivity|discriminate|discriminate|].
  destruct Hwin as (Hg & Hg' & Hu & Hu'); [vm_compute; reflexivity|].
  exists res, s', o'. split; [exact Hrun|].
  unfold get_total_strength. rewrite Hg, Hg', Hu, Hu'.
  vm_compute. repeat split; reflexivity.
Defined.

(** C1 as stated fails when an army attacks itself: the English army,
    against itself, draws and is left with 28 of its 30 units, not with the
    29 that losing its single strongest unit would leave. *)
Lemma attack_self_loses_two_units :
  Army_init "english" = inr english ∧
  ∃ s',
    attack 0 0 {[ 0%nat := english ]} = (inr "draw", {[ 0%nat := s' ]}) ∧
    length (units english) = 30%nat ∧
    length (units s') = 28%nat ∧
    length (strongest_removed 1 (units english)) = 29%nat ∧
    units s' ≠ age <$> strongest_removed 1 (units english).
Proof.
  split; [reflexivity|].
  eexists. split.
  - rewrite (attack_self {[ 0%nat := english ]} 0 english);
      [|reflexivity|discriminate].
    rewrite insert_singleton_eq. reflexivity.
  - split; [reflexivity|]. split; [reflexivity|]. split; [reflexivity|].
    intros H. apply (f_equal length) in H. vm_compute in H. discriminate.
Qed.


(** C7 (for two different armies): an [attack] that passes the empty-roster
    guards appends exactly one record to each history, after the entries
    already there.  The attacker's record names the other army's
    civilization, its own and the enemy's total strength as they were
    before the call, and the result; the other army's record is the
    mirror image: strengths swapped, victory and defeat exchanged, a draw
    kept. *)
Theorem attack_records_battle (h : gmap nat Army) (self other_army : nat)
    (s o : Army) :
  self ≠ other_army →
  h !! self = Some s → h !! other_army = Some o →
  units s ≠ [] → units o ≠ [] →
  ∃ res mirrored s' o',
    attack self other_army h
    = (inr res, <[other_army := o']> (<[self := s']> h)) ∧
    ((get_total_strength o < get_total_strength s
        ∧ res = "victory" ∧ mirrored = "defeat") ∨
     (get_total_strength s < get_total_strength o
        ∧ res = "defeat" ∧ mirrored = "victory") ∨
     (get_total_strength s = get_total_strength o
        ∧ res = "draw" ∧ mirrored = "draw")) ∧
    battle_record s' =
      (battle_record s ++
       [ {| opponent := civilization o;
            our_strength := get_total_strength s;
            enemy_strength := get_total_strength o;
            result := res |} ])%list ∧
    battle_record o' =
      (battle_record o ++
       [ {| opponent := civilization s;
            our_strength := get_total_strength o;
            enemy_strength := get_total_strength s;
            result := mirrored |} ])%list.
Proof.
  intros Hne Hs Ho Hsu Hou.
  eexists _, _, _, _. split; [by apply attack_distinct|].
  split; [|split; reflexivity].
  destruct (battle_result_cases (get_total_strength s) (get_total_strength o))
    as [[H ->]|[[H ->]|[H ->]]]; auto.
Qed.

Lemma attack_records_battle_witness :
  ∃ res mirrored s' o',
    attack 0 1 {[ 0%nat := english; 1%nat := chinese ]}
    = (inr res, <[1%nat := o']> (<[0%nat := s']> {[ 0%nat := english; 1%nat := chinese ]})) ∧
    res = "victory" ∧ mirrored = "defeat" ∧
    battle_record s' = [ mkBattleRecord "chinese" 350 300 res ] ∧
    battle_record o' = [ mkBattleRecord "english" 300 350 mirrored ].
Proof.
  destruct (attack_records_battle {[ 0%nat := english; 1%nat := chinese ]}
              0 1 english chinese)
    as (res & mirrored & s' & o' & Hrun & Hres & Hrs & Hro);
    [done|reflexivity|reflexivity|discriminate|discriminate|].
  exists res, mirrored, s', o'. split; [exact Hrun|].
  rewrite Hrs, Hro.
  destruct Hres as [(_ & -> & ->)|[(Hlt & _)|(Heq & _)]].
  - repeat split; reflexivity.
  - vm_compute in Hlt. discriminate Hlt.
  - vm_compute in Heq. discriminate Heq.
Defined.

(** C7 as stated fails when an army attacks itself: both appends go to the
    one history, which gains two records instead of one. *)
Lemma attack_self_records_twice :
  Army_init "english" = inr english ∧
  ∃ s',
    attack 0 0 {[ 0%nat := english ]} = (inr "draw", {[ 0%nat := s' ]}) ∧
    battle_record english = [] ∧
    battle_record s' = [ mkBattleRecord "english" 350 350 "draw";
                         mkBattleRecord "english" 350 350 "draw" ].
Proof.
  split; [reflexivity|].
  eexists. split.
  - rewrite (attack_self {[ 0%nat := english ]} 0 english);
      [|reflexivity|discriminate].
    rewrite insert_singleton_eq. reflexivity.
  - split; reflexivity.
Qed.

(** * The gold invariant *)

Section Gold.

Implicit Types (h : gmap nat Army) (l : nat) (a : Army).

Lemma keeps_ret {A} (x : A) (Q : A → Prop) : Q x → keeps_gold_ok (mret x) Q.
Proof. intros HQ h Hh. split; [done|]. intros y [= <-]. done. Qed.

Lemma keeps_bind {A B} (m : M A) (f : A → M B) (P : A → Prop) (Q : B → Prop) :
  keeps_gold_ok m P → (∀ x, P x → keeps_gold_ok (f x) Q) →
  keeps_gold_ok (m ≫= f) Q.
Proof.
  intros Hm Hf h Hh. rewrite bind_run.
  destruct (Hm h Hh) as [Hh' HP]. destruct (m h) as [[e|x] h']; simpl in *.
  - split; [done|]. intros y [=].
  - apply Hf; [by apply HP|done].
Qed.

Lemma keeps_read l : keeps_gold_ok (read l) (λ a, 0 ≤ gold a).
Proof.
  intros h Hh. unfold read. destruct (h !! l) as [a|] eqn:Hl; simpl.
  - split; [done|]. intros x [= <-]. by apply (Hh l).
  - split; [done|]. intros x [=].
Qed.

Lemma keeps_write l a : 0 ≤ gold a → keeps_gold_ok (write l a) (λ _, True).
Proof.
  intros Ha h Hh. split; [|done]. simpl. by apply map_Forall_insert_2.
Qed.

Lemma keeps_alloc a : 0 ≤ gold a → keeps_gold_ok (alloc a) (λ _, True).
Proof.
  intros Ha h Hh. split; [|done]. simpl. by apply map_Forall_insert_2.
Qed.

Lemma keeps_lift {A} (r : exn + A) : keeps_gold_ok (lift r) (λ x, r = inr x).
Proof.
  intros h Hh. unfold lift. destruct r as [e|x]; simpl.
  - split; [done|]. intros y [=].
  - split; [done|]. intros y [= <-]. done.
Qed.

(** Gold through the methods that act on one army. *)
Lemma Army_init_gold civ a : Army_init civ = inr a → gold a = 1000.
Proof.
  unfold Army_init. repeat case_match; intros [= <-]; reflexivity.
Qed.

Lemma train_unit_gold i a b a' :
  train_unit i a = inr (b, a') → 0 ≤ gold a → 0 ≤ gold a'.
Proof.
  intros Ht Ha.
  destruct (decide (0 ≤ i < Z.of_nat (length (units a)))) as [Hi|Hi].
  - destruct (in_bounds_lookup _ _ Hi) as [u Hu].
    rewrite (train_unit_in_bounds i a u (proj1 Hi) Hu) in Ht.
    destruct (Z.geb_spec (gold a) (training_cost u)); injection Ht as <- <-;
      simpl; lia.
  - rewrite train_unit_out_of_bounds in Ht by done. by injection Ht as <- <-.
Qed.

Lemma transform_unit_gold i ty a b a' :
  transform_unit i ty a = inr (b, a') → 0 ≤ gold a → 0 ≤ gold a'.
Proof.
  intros Ht Ha.
  destruct (transform_unit_result i ty a) as (b0 & a0 & Ht0 & Hiff & Hok & Hno).
  rewrite Ht in Ht0. injection Ht0 as <- <-. destruct b.
  - destruct (proj1 Hiff eq_refl) as (_ & u & cost & c & Hu & Hr & Hc).
    destruct (Hok eq_refl) as (u' & cost' & c' & Hu' & Hr' & ->).
    simplify_eq. simpl. lia.
  - by rewrite (Hno eq_refl).
Qed.

Lemma keeps_gold_add l n : 0 ≤ n → keeps_gold_ok (gold_add l n) (λ _, True).
Proof.
  intros Hn. eapply keeps_bind; [apply keeps_read|].
  intros a Ha. simpl in Ha. apply keeps_write. simpl. lia.
Qed.

Lemma keeps_call_remove_strongest_units l n :
  keeps_gold_ok (call_remove_strongest_units l n) (λ _, True).
Proof.
  eapply keeps_bind; [apply keeps_read|]. intros a Ha.
  eapply keeps_bind; [apply keeps_lift|]. intros a' Hr.
  rewrite remove_strongest_units_spec in Hr. injection Hr as <-.
  by apply keeps_write.
Qed.

Lemma keeps_call_age_all_units l :
  keeps_gold_ok (call_age_all_units l) (λ _, True).
Proof.
  eapply keeps_bind; [apply keeps_read|]. intros a Ha. by apply keeps_write.
Qed.

Lemma keeps_battle_record_append l r :
  keeps_gold_ok (battle_record_append l r) (λ _, True).
Proof.
  eapply keeps_bind; [apply keeps_read|]. intros a Ha. by apply keeps_write.
Qed.

Lemma keeps_new_army civ : keeps_gold_ok (new_army civ) (λ _, True).
Proof.
  eapply keeps_bind; [apply keeps_lift|]. intros a Ha.
  apply keeps_alloc. rewrite (Army_init_gold _ _ Ha). lia.
Qed.

Lemma keeps_call_train_unit l i :
  keeps_gold_ok (call_train_unit l i) (λ _, True).
Proof.
  eapply keeps_bind; [apply keeps_read|]. intros a Ha.
  eapply keeps_bind; [apply keeps_lift|]. intros [b a'] Hr.
  eapply keeps_bind; [|intros; by apply keeps_ret].
  apply keeps_write. simpl. by eapply train_unit_gold.
Qed.

Lemma keeps_call_transform_unit l i ty :
  keeps_gold_ok (call_transform_unit l i ty) (λ _, True).
Proof.
  eapply keeps_bind; [apply keeps_read|]. intros a Ha.
  eapply keeps_bind; [apply keeps_lift|]. intros [b a'] Hr.
  eapply keeps_bind; [|intros; by apply keeps_ret].
  apply keeps_write. simpl. by eapply transform_unit_gold.
Qed.

Lemma keeps_seq {A} (m : M ()) (k : M A) (Q : A → Prop) :
  keeps_gold_ok m (λ _, True) → keeps_gold_ok k Q →
  keeps_gold_ok (m ;; k) Q.
Proof. intros Hm Hk. eapply keeps_bind; [exact Hm|]. intros _ _. exact Hk. Qed.

(** [attack] keeps the invariant whatever the two addresses are: equal,
    different, or not in use. *)
Lemma keeps_attack self other_army :
  keeps_gold_ok (attack self other_army) (λ _, True).
Proof.
  unfold attack.
  eapply keeps_bind; [apply keeps_read|]. intros s Hs.
  destruct (bool_decide (units s = [])); [by apply keeps_ret|].
  eapply keeps_bind; [apply keeps_read|]. intros o Ho.
  destruct (bool_decide (units o = [])); [by apply keeps_ret|].
  eapply (keeps_bind _ _ (λ _, True)).
  - destruct (_ >? _); [|destruct (_ >? _)].
    + apply keeps_seq; [by apply keeps_gold_add|].
      apply keeps_seq; [apply keeps_call_remove_strongest_units|].
      by apply keeps_ret.
    + apply keeps_seq; [by apply keeps_gold_add|].
      apply keeps_seq; [apply keeps_call_remove_strongest_units|].
      by apply keeps_ret.
    + apply keeps_seq; [apply keeps_call_remove_strongest_units|].
      apply keeps_seq; [apply keeps_call_remove_strongest_units|].
      by apply keeps_ret.
  - intros res _.
    apply keeps_seq; [apply keeps_call_age_all_units|].
    apply keeps_seq; [apply keeps_call_age_all_units|].
    apply keeps_seq; [apply keeps_battle_record_append|].
    apply keeps_seq; [apply keeps_battle_record_append|].
    by apply keeps_ret.
Qed.

Lemma run_op_gold_ok op0 h : gold_ok h → gold_ok (run_op op0 h).
Proof.
  intros Hh. destruct op0; simpl.
  - by apply keeps_new_army.
  - by apply keeps_call_train_unit.
  - by apply keeps_call_transform_unit.
  - by apply keeps_attack.
Qed.

Lemma run_ops_gold_ok os h : gold_ok h → gold_ok (run_ops os h).
Proof.
  revert h. induction os as [|op0 os IH]; intros h Hh; [done|].
  apply IH. by apply run_op_gold_ok.
Qed.

End Gold.

(** C10: starting from no armies at all, after any sequence of
    constructions and of [train_unit], [transform_unit] and [attack] calls
    (on any addresses, with any arguments), every army has gold >= 0. *)
Theorem gold_never_negative (os : list op) (l : nat) (a : Army) :
  run_ops os ∅ !! l = Some a → 0 ≤ gold a.
Proof.
  intros Hl. apply (run_ops_gold_ok os ∅ (map_Forall_empty _) l a Hl).
Qed.

Lemma gold_never_negative_witness :
  ∃ a, run_ops [OpNew "chinese"; OpNew "English"; OpTrain 0 0;
                OpTransform 0 0 "archer"; OpAttack 0 1; OpAttack 1 1] ∅
       !! 0%nat = Some a ∧ gold a = 960 ∧ 0 ≤ gold a.
Proof.
  eexists. split; [vm_compute; reflexivity|]. split; [reflexivity|].
  eapply (gold_never_negative
            [OpNew "chinese"; OpNew "English"; OpTrain 0 0;
             OpTransform 0 0 "archer"; OpAttack 0 1; OpAttack 1 1] 0).
  vm_compute. reflexivity.
Defined.

(** * Further properties of the roster operations *)

Section RosterFacts.

Implicit Types (u v : Unit) (us vs : list Unit).

Lemma sum_strength_perm us vs : us ≡ₚ vs → sum_strength us = sum_strength vs.
Proof. induction 1; simpl; lia. Qed.

Lemma sum_strength_insert us i u v :
  us !! i = Some u →
  sum_strength (<[i := v]> us) = sum_strength us - strength u + strength v.
Proof.
  revert i. induction us as [|w us IH]; intros [|i] Hi; simpl in *; try done.
  - injection Hi as ->. lia.
  - rewrite (IH i Hi). lia.
Qed.

Lemma sum_strength_age us : sum_strength (age <$> us) = sum_strength us.
Proof. induction us as [|u us IH]; csimpl; [done|]. by rewrite IH. Qed.

(** The units the policy takes out, as a list: together with the
    survivors they make up the roster, and none of them is weaker than a
    survivor. *)
Lemma strongest_removed_split n us :
  ∃ removed,
    us ≡ₚ removed ++ strongest_removed n us ∧
    length removed = (n `min` length us)%nat ∧
    ∀ r v, r ∈ removed → v ∈ strongest_removed n us → strength v ≤ strength r.
Proof.
  revert us. induction n as [|n IH]; intros us.
  { exists []. split; [done|]. split; [done|]. intros r v Hr. by apply elem_of_nil in Hr. }
  destruct (decide (us = [])) as [->|Hne].
  { exists []. rewrite strongest_removed_nil. split; [done|]. split; [done|].
    intros r v Hr. by apply elem_of_nil in Hr. }
  destruct (strongest_removed_policy n us) as (_ & _ & _ & Hstep).
  destruct (Hstep Hne) as (i & u & Hi & Hall & _ & ->).
  destruct (IH (delete i us)) as (removed & Hperm & Hlen & Hord).
  exists (u :: removed). split; [|split].
  - etrans; [exact (delete_Permutation us i u Hi)|]. simpl.
    by apply Permutation_skip.
  - cbn [length]. rewrite Hlen, length_delete by (by eexists).
    assert (i < length us)%nat by (by eapply lookup_lt_Some). lia.
  - intros r v Hr Hv. apply elem_of_cons in Hr as [->|Hr]; [|by apply Hord].
    apply Hall. eapply elem_of_sublist; [|apply sublist_delete].
    eapply elem_of_sublist; [exact Hv|apply strongest_removed_sublist].
Qed.

End RosterFacts.

(** X1: [remove_strongest_units] never raises, whatever the count.  It leaves
    civilization, gold and history alone and keeps the survivors in their
    order.  The units taken out number [count], cut to the range from 0 to
    the roster size; none of them is weaker than any survivor, and the
    total strength drops by exactly the sum of their strengths. *)
Theorem remove_strongest_units_takes_strongest (count : Z) (a : Army) :
  ∃ a' removed,
    remove_strongest_units count a = inr a' ∧
    civilization a' = civilization a ∧
    gold a' = gold a ∧
    battle_record a' = battle_record a ∧
    units a' `sublist_of` units a ∧
    units a ≡ₚ removed ++ units a' ∧
    Z.of_nat (length removed)
    = Z.max 0 (Z.min count (Z.of_nat (length (units a)))) ∧
    (∀ r v, r ∈ removed → v ∈ units a' → strength v ≤ strength r) ∧
    get_total_strength a' = get_total_strength a - sum_strength removed.
Proof.
  destruct (strongest_removed_split (Z.to_nat count) (units a))
    as (removed & Hperm & Hlen & Hord).
  eexists _, removed. split; [apply remove_strongest_units_spec|].
  simpl. repeat split; try done.
  - apply strongest_removed_sublist.
  - rewrite Hlen. lia.
  - unfold get_total_strength. simpl.
    rewrite (sum_strength_perm _ _ Hperm), sum_strength_app. lia.
Qed.

(** X2: A successful [train_unit] raises the army's total strength by exactly
    the training gain of the trained unit and keeps the roster size. *)
Theorem train_unit_total_strength (i : Z) (a a' : Army) :
  train_unit i a = inr (true, a') →
  ∃ u, units a !! Z.to_nat i = Some u ∧
    get_total_strength a' = get_total_strength a + training_gain u ∧
    length (units a') = length (units a).
Proof.
  intros Ht.
  destruct (decide (0 ≤ i < Z.of_nat (length (units a)))) as [Hi|Hi].
  - destruct (in_bounds_lookup _ _ Hi) as [u Hu].
    rewrite (train_unit_in_bounds i a u (proj1 Hi) Hu) in Ht.
    destruct (gold a >=? training_cost u); [|discriminate Ht].
    injection Ht as <-. exists u. split; [done|]. split.
    + unfold get_total_strength. simpl.
      rewrite (sum_strength_insert _ _ _ _ Hu). simpl. lia.
    + simpl. apply length_insert.
  - rewrite train_unit_out_of_bounds in Ht by done. discriminate Ht.
Qed.

Lemma train_unit_total_strength_witness :
  ∃ u, units chinese !! Z.to_nat 2 = Some u ∧
    get_total_strength
      (set_units (<[2%nat := train Archer]> (units chinese))
                 (set_gold 980 chinese))
    = get_total_strength chinese + training_gain u ∧
    length (<[2%nat := train Archer]> (units chinese)) = length (units chinese).
Proof.
  apply (train_unit_total_strength 2 chinese). reflexivity.
Defined.

(** X3: A successful [transform_unit] keeps the roster size and raises the
    army's total strength by the difference of the two base strengths: by
    5 for 30 gold when the target is "archer", by 10 for 40 gold when it is
    "knight". *)
Theorem transform_unit_total_strength (i : Z) (ty : string) (a a' : Army) :
  transform_unit i ty a = inr (true, a') →
  length (units a') = length (units a) ∧
  ((lower ty = "archer" ∧ gold a' = gold a - 30 ∧
    get_total_strength a' = get_total_strength a + 5) ∨
   (lower ty = "knight" ∧ gold a' = gold a - 40 ∧
    get_total_strength a' = get_total_strength a + 10)).
Proof.
  intros Ht.
  destruct (transform_unit_result i ty a) as (b & a0 & Ht0 & _ & Hok & _).
  rewrite Ht in Ht0. injection Ht0 as <- <-.
  destruct (Hok eq_refl) as (u & cost & c & Hu & Hr & ->).
  split; [simpl; apply length_insert|].
  unfold get_total_strength. simpl. rewrite (sum_strength_insert _ _ _ _ Hu).
  apply transform_rule_Some in Hr
    as [(Hc & -> & -> & ->)|(Hc & -> & -> & ->)]; [left|right];
    (split; [done|]); (split; [done|]); simpl; rewrite Hc; simpl; lia.
Qed.

Lemma transform_unit_total_strength_witness :
  ∃ a', transform_unit 0 "Archer" chinese = inr (true, a') ∧
    length (units a') = length (units chinese) ∧
    gold a' = 970 ∧ get_total_strength a' = 305.
Proof.
  eexists. split; [reflexivity|].
  destruct (transform_unit_total_strength 0 "Archer" chinese _ eq_refl)
    as (Hlen & [(_ & Hg & Hs)|(Hty & _)]).
  - split; [exact Hlen|]. split; [exact Hg|exact Hs].
  - discriminate Hty.
Defined.

(** * Further properties of battles *)

Section AttackFacts.

Implicit Types (h : gmap nat Army) (s o a : Army).

Lemma attack_dangling_self h self other_army :
  h !! self = None →
  attack self other_army h = (inl (Dangling self), h).
Proof.
  intros Hs. unfold attack. by rewrite bind_run, (read_dangling _ _ Hs).
Qed.

Lemma attack_dangling_other h self other_army s :
  h !! self = Some s → units s ≠ [] → h !! other_army = None →
  attack self other_army h = (inl (Dangling other_army), h).
Proof.
  intros Hs Hne Ho. unfold attack.
  rewrite bind_run, (read_run _ _ _ Hs), (nonempty_guard _ Hne).
  by rewrite bind_run, (read_dangling _ _ Ho).
Qed.

Lemma attack_self_step h l s :
  h !! l = Some s → units s ≠ [] →
  attack l l h = (inr "draw", <[l := after_self_battle s]> h).
Proof. intros Hs Hne. by rewrite (attack_self h l s Hs Hne). Qed.

Lemma battle_result_values our enemy :
  battle_result our enemy ∈ ["victory"; "defeat"; "draw"].
Proof.
  rewrite !elem_of_cons.
  destruct (battle_result_cases our enemy) as [[_ ->]|[[_ ->]|[_ ->]]]; auto.
Qed.

Lemma mirrored_battle_result our enemy :
  mirrored_result (battle_result our enemy) = battle_result enemy our.
Proof.
  destruct (battle_result_cases our enemy) as [[H ->]|[[H ->]|[H ->]]].
  - by rewrite battle_result_defeat.
  - by rewrite battle_result_victory.
  - by rewrite battle_result_draw.
Qed.

End AttackFacts.

(** X4: [attack] between two armies of the heap (which may be one and the
    same) never raises and returns one of five strings: ["no_units"]
    exactly when the attacker has no units, ["no_target"] exactly when the
    attacker has units and the target has none, and otherwise the
    comparison of the two total strengths.  No address is added or freed,
    and no third army is touched. *)
Theorem attack_returns (h : gmap nat Army) (self other_army : nat)
    (s o : Army) :
  h !! self = Some s → h !! other_army = Some o →
  ∃ res h',
    attack self other_army h = (inr res, h') ∧
    res ∈ ["no_units"; "no_target"; "victory"; "defeat"; "draw"] ∧
    (res = "no_units" ↔ units s = []) ∧
    (res = "no_target" ↔ units s ≠ [] ∧ units o = []) ∧
    (units s ≠ [] → units o ≠ [] →
     res = battle_result (get_total_strength s) (get_total_strength o)) ∧
    dom h' = dom h ∧
    (∀ l, l ≠ self → l ≠ other_army → h' !! l = h !! l).
Proof.
  intros Hs Ho.
  destruct (decide (units s = [])) as [Hse|Hsne].
  { exists "no_units", h. split; [by eapply attack_no_units|].
    split; [rewrite !elem_of_cons; auto|].
    split; [done|]. split; [split; [done|by intros [? _]]|].
    split; [done|]. split; done. }
  destruct (decide (units o = [])) as [Hoe|Hone].
  { exists "no_target", h. split; [by eapply attack_no_target|].
    split; [rewrite !elem_of_cons; auto|].
    split; [split; done|]. split; [done|].
    split; [done|]. split; done. }
  assert (Hres := battle_result_cases (get_total_strength s) (get_total_strength o)).
  assert (Hval : ∀ r, r ∈ ["victory"; "defeat"; "draw"] →
                 r ∈ ["no_units"; "no_target"; "victory"; "defeat"; "draw"]
                 ∧ r ≠ "no_units" ∧ r ≠ "no_target").
  { intros r. rewrite !elem_of_cons.
    intros [->|[->|[->|[]%elem_of_nil]]]; auto 10. }
  destruct (Hval _ (battle_result_values (get_total_strength s)
                      (get_total_strength o))) as (Hin & Hnu & Hnt).
  destruct (decide (self = other_army)) as [<-|Hne].
  - assert (o = s) as -> by congruence.
    exists "draw", (<[self := after_self_battle s]> h).
    split; [by apply attack_self_step|].
    rewrite battle_result_draw in Hin, Hnu, Hnt by done.
    split; [done|]. split; [done|]. split; [split; [done|by intros [? ?]]|].
    split; [intros _ _; by rewrite battle_result_draw|].
    split.
    + apply dom_insert_lookup_L. by eexists.
    + intros l Hl _. by rewrite lookup_insert_ne.
  - eexists _, _. split; [by apply attack_distinct|].
    split; [done|]. split; [done|]. split; [split; [done|by intros [_ ?]]|].
    split; [done|]. split.
    + rewrite !dom_insert_lookup_L; [done|by eexists|].
      rewrite lookup_insert_ne by done. by eexists.
    + intros l Hl1 Hl2. by rewrite !lookup_insert_ne.
Qed.

Lemma attack_returns_witness :
  ∃ res h',
    attack 1 0 {[ 0%nat := english; 1%nat := chinese ]} = (inr res, h') ∧
    res = "defeat" ∧ dom h' = {[ 0%nat; 1%nat ]}.
Proof.
  set (h := {[ 0%nat := english; 1%nat := chinese ]} : gmap nat Army).
  destruct (attack_returns h 1 0 chinese english)
    as (res & h' & Hrun & _ & _ & _ & Hres & Hdom & _);
    [reflexivity|reflexivity|].
  exists res, h'. split; [exact Hrun|]. split.
  - rewrite Hres; [reflexivity|discriminate|discriminate].
  - rewrite Hdom. unfold h. rewrite dom_insert_L, dom_singleton_L. done.
Defined.

(** X5: An army with units that attacks itself always draws: its gold and
    civilization stay, it loses its two strongest units (its only unit, if
    it has one), every survivor ages by two years, and its history gains
    two identical draw records carrying its own name and strength. *)
Theorem attack_on_itself (h : gmap nat Army) (l : nat) (s : Army) :
  h !! l = Some s → units s ≠ [] →
  ∃ s',
    attack l l h = (inr "draw", <[l := s']> h) ∧
    civilization s' = civilization s ∧
    gold s' = gold s ∧
    units s' = (λ u, set_years_of_life (years_of_life u + 2) u)
               <$> strongest_removed 2 (units s) ∧
    length (units s') = (length (units s) - 2)%nat ∧
    battle_record s' =
      (battle_record s ++
       [ {| opponent := civilization s;
            our_strength := get_total_strength s;
            enemy_strength := get_total_strength s; result := "draw" |};
         {| opponent := civilization s;
            our_strength := get_total_strength s;
            enemy_strength := get_total_strength s; result := "draw" |} ])%list.
Proof.
  intros Hs Hne. exists (after_self_battle s).
  split; [by apply attack_self_step|]. split; [done|]. split; [done|].
  split; [|split].
  - simpl. rewrite <- list_fmap_compose. apply list_fmap_ext.
    intros i u _. unfold age, set_years_of_life. simpl. f_equal. lia.
  - unfold after_self_battle. cbn [units].
    rewrite !length_fmap, strongest_removed_length. lia.
  - simpl. by rewrite <- app_assoc.
Qed.

Lemma attack_on_itself_witness :
  ∃ s',
    attack 0 0 {[ 0%nat := chinese ]} = (inr "draw", <[0%nat := s']> {[ 0%nat := chinese ]}) ∧
    gold s' = 1000 ∧ length (units s') = 27%nat ∧
    length (battle_record s') = 2%nat.
Proof.
  destruct (attack_on_itself {[ 0%nat := chinese ]} 0 chinese)
    as (s' & Hrun & _ & Hg & _ & Hlen & Hrec); [reflexivity|discriminate|].
  exists s'. split; [exact Hrun|]. rewrite Hg, Hlen, Hrec. 
  repeat split; reflexivity.
Defined.

(** * Every call is a step *)

Section Steps.

Implicit Types (h : gmap nat Army) (a : Army).

Lemma new_army_step civ h : heap_step h (new_army civ h).2.
Proof.
  unfold new_army. rewrite bind_run. unfold lift.
  destruct (Army_init civ) as [e|a] eqn:Ha; simpl.
  - apply step_none.
  - by apply step_new with civ.
Qed.

Lemma call_train_unit_step l i h : heap_step h (call_train_unit l i h).2.
Proof.
  destruct (h !! l) as [a|] eqn:Hl.
  2:{ unfold call_train_unit. rewrite bind_run, (read_dangling _ _ Hl).
      apply step_none. }
  destruct (decide (0 ≤ i < Z.of_nat (length (units a)))) as [Hi|Hi].
  - destruct (in_bounds_lookup _ _ Hi) as [u Hu].
    pose proof (train_unit_in_bounds i a u (proj1 Hi) Hu) as Ht.
    destruct (Z.geb_spec (gold a) (training_cost u)) as [Hg|Hg].
    + rewrite (call_train_unit_run _ _ _ _ _ _ Hl Ht). simpl.
      by apply (step_train h l a (Z.to_nat i) u).
    + rewrite (call_train_unit_run _ _ _ _ _ _ Hl Ht). simpl.
      rewrite insert_id by done. apply step_none.
  - rewrite (call_train_unit_run _ _ _ _ false a Hl)
      by (by apply train_unit_out_of_bounds).
    simpl. rewrite insert_id by done. apply step_none.
Qed.

Lemma call_transform_unit_step l i ty h :
  heap_step h (call_transform_unit l i ty h).2.
Proof.
  destruct (h !! l) as [a|] eqn:Hl.
  2:{ unfold call_transform_unit. rewrite bind_run, (read_dangling _ _ Hl).
      apply step_none. }
  destruct (transform_unit_result i ty a) as (b & a' & Ht & Hiff & Hok & Hno).
  rewrite (call_transform_unit_run _ _ _ _ _ _ _ Hl Ht). simpl.
  destruct b.
  - destruct (proj1 Hiff eq_refl) as (_ & u & cost & c & Hu & Hr & Hc).
    destruct (Hok eq_refl) as (u' & cost' & c' & Hu' & Hr' & ->).
    simplify_eq.
    by apply (step_transform h l a (Z.to_nat i) u (lower ty) cost c).
  - rewrite (Hno eq_refl), insert_id by done. apply step_none.
Qed.

Lemma attack_step self other_army h : heap_step h (attack self other_army h).2.
Proof.
  destruct (h !! self) as [s|] eqn:Hs.
  2:{ rewrite attack_dangling_self by done. apply step_none. }
  destruct (decide (units s = [])) as [Hse|Hsne].
  { rewrite (attack_no_units _ _ _ _ Hs Hse). apply step_none. }
  destruct (h !! other_army) as [o|] eqn:Ho.
  2:{ rewrite (attack_dangling_other _ _ _ _ Hs Hsne Ho). apply step_none. }
  destruct (decide (units o = [])) as [Hoe|Hone].
  { rewrite (attack_no_target _ _ _ _ _ Hs Hsne Ho Hoe). apply step_none. }
  destruct (decide (self = other_army)) as [<-|Hne].
  - rewrite (attack_self_step _ _ _ Hs Hsne). by apply step_self_battle.
  - rewrite (attack_distinct _ _ _ _ _ Hne Hs Ho Hsne Hone).
    by apply step_battle.
Qed.

Lemma run_op_step op0 h : heap_step h (run_op op0 h).
Proof.
  destruct op0; simpl.
  - apply new_army_step.
  - apply call_train_unit_step.
  - apply call_transform_unit_step.
  - apply attack_step.
Qed.

(** A property kept by every step holds after any program. *)
Lemma run_ops_ind (P : gmap nat Army → Prop) :
  (∀ h h', heap_step h h' → P h → P h') →
  ∀ os h, P h → P (run_ops os h).
Proof.
  intros Hstep os. induction os as [|op0 os IH]; intros h Hh; [done|].
  apply IH. eapply Hstep; [apply run_op_step|done].
Qed.

End Steps.

(** * Well-formedness is kept *)

Section WellFormed.

Implicit Types (h : gmap nat Army) (a : Army) (u : Unit).

Lemma unit_wf_fresh c : unit_wf 0 (fresh_unit c).
Proof. destruct c; repeat split; simpl; lia. Qed.

Lemma unit_wf_train n u : unit_wf n u → unit_wf n (train u).
Proof.
  intros (Hty & Hcost & Hgain & Hs & Hy). repeat split; try done. simpl.
  rewrite Hgain. destruct (cls u); simpl in *; lia.
Qed.

Lemma unit_wf_transformed n u c : unit_wf n u → unit_wf n (transformed u c).
Proof.
  intros (Hty & Hcost & Hgain & Hs & Hy). repeat split; try done. simpl. lia.
Qed.

Lemma unit_wf_age n u : unit_wf n u → unit_wf (S n) (age u).
Proof.
  intros (Hty & Hcost & Hgain & Hs & Hy). repeat split; try done. simpl. lia.
Qed.

Lemma units_wf_strength n (us : list Unit) :
  Forall (unit_wf n) us → 5 * Z.of_nat (length us) ≤ sum_strength us.
Proof.
  induction 1 as [|u us (_ & _ & _ & Hs & _) _ IH]; simpl; [lia|].
  destruct (cls u); simpl in Hs; lia.
Qed.

Lemma units_wf_total n (us : list Unit) :
  Forall (unit_wf n) us → us ≠ [] → 5 ≤ sum_strength us.
Proof.
  intros Hwf Hne. pose proof (units_wf_strength n us Hwf).
  destruct us; [done|]. simpl in *. lia.
Qed.

Lemma units_wf_survivors n k (us : list Unit) :
  Forall (unit_wf n) us →
  Forall (unit_wf (S n)) (age <$> strongest_removed k us).
Proof.
  intros Hwf. apply Forall_fmap, Forall_forall. intros u Hu.
  apply unit_wf_age. rewrite Forall_forall in Hwf. apply Hwf.
  eapply elem_of_sublist; [exact Hu|apply strongest_removed_sublist].
Qed.

Lemma preset_roster_wf c : Forall (unit_wf 0) (preset_roster c).
Proof.
  unfold preset_roster. rewrite !Forall_app.
  repeat split; apply Forall_replicate.
  - apply (unit_wf_fresh PikemanClass).
  - apply (unit_wf_fresh ArcherClass).
  - apply (unit_wf_fresh KnightClass).
Qed.

Lemma Army_init_inr civ a :
  Army_init civ = inr a →
  ∃ c, (lower civ, c) ∈ preset_table ∧
    a = {| civilization := civ; gold := 1000; units := preset_roster c;
           battle_record := [] |}.
Proof.
  intros Ha. destruct (decide (lower civ ∈ preset_names)) as [Hin|Hnot].
  - unfold preset_names in Hin.
    apply list_elem_of_fmap in Hin as ([name c] & Hl & Hin). simpl in Hl.
    subst name. exists c. split; [done|].
    rewrite (Army_init_preset civ _ c Hin eq_refl) in Ha. by injection Ha.
  - by rewrite (Army_init_unknown civ Hnot) in Ha.
Qed.

Lemma Army_init_wf civ a : Army_init civ = inr a → army_wf a.
Proof.
  intros (c & Hin & ->)%Army_init_inr. split; [|split]; simpl.
  - unfold preset_names. apply list_elem_of_fmap. by exists (lower civ, c).
  - apply preset_roster_wf.
  - constructor.
Qed.

Lemma after_battle_wf a opponent_name our enemy :
  army_wf a → lower opponent_name ∈ preset_names →
  5 ≤ our → 5 ≤ enemy →
  army_wf (after_battle a opponent_name our enemy (battle_result our enemy)).
Proof.
  intros (Hciv & Hus & Hrs) Hopp Hour Henemy. split; [done|]. split; simpl.
  - rewrite length_app, Nat.add_1_r. by apply units_wf_survivors.
  - apply Forall_app. split; [done|]. apply Forall_singleton.
    repeat split; done.
Qed.

Lemma after_self_battle_wf a :
  army_wf a → units a ≠ [] → army_wf (after_self_battle a).
Proof.
  intros (Hciv & Hus & Hrs) Hne.
  pose proof (units_wf_total _ _ Hus Hne) as Ht.
  split; [done|]. split; unfold after_self_battle; cbn [units battle_record].
  - rewrite !length_app, !Nat.add_1_r.
    apply Forall_fmap, Forall_forall. intros u Hu. apply unit_wf_age.
    revert u Hu. apply Forall_forall. by apply units_wf_survivors.
  - rewrite !Forall_app, !Forall_singleton.
    assert (record_ok {| opponent := civilization a;
                         our_strength := get_total_strength a;
                         enemy_strength := get_total_strength a;
                         result := "draw" |}).
    { repeat split; simpl; try done. by rewrite battle_result_draw. }
    done.
Qed.

Lemma heap_step_wf h h' :
  heap_step h h' → map_Forall (λ _, army_wf) h → map_Forall (λ _, army_wf) h'.
Proof.
  intros Hstep Hh. destruct Hstep as
    [h|h civ a Ha|h l a i u Hl Hu Hg|h l a i u target cost c Hl Hu Hr Hg
    |h self other_army s o Hne Hs Ho Hsu Hou our enemy res|h l s Hs Hsu].
  - done.
  - apply map_Forall_insert_2; [by eapply Army_init_wf|done].
  - apply map_Forall_insert_2; [|done].
    destruct (Hh l a Hl) as (Hciv & Hus & Hrs). split; [done|]. split; [|done].
    simpl. apply Forall_insert; [done|]. apply unit_wf_train.
    rewrite Forall_forall in Hus. apply Hus. by eapply list_elem_of_lookup_2.
  - apply map_Forall_insert_2; [|done].
    destruct (Hh l a Hl) as (Hciv & Hus & Hrs). split; [done|]. split; [|done].
    simpl. apply Forall_insert; [done|]. apply unit_wf_transformed.
    rewrite Forall_forall in Hus. apply Hus. by eapply list_elem_of_lookup_2.
  - pose proof (Hh self s Hs) as Hws. pose proof (Hh other_army o Ho) as Hwo.
    assert (5 ≤ our) by (destruct Hws as (_ & ? & _); by eapply units_wf_total).
    assert (5 ≤ enemy) by (destruct Hwo as (_ & ? & _); by eapply units_wf_total).
    apply map_Forall_insert_2; [|apply map_Forall_insert_2; [|done]].
    + unfold res. rewrite mirrored_battle_result.
      apply after_battle_wf; try done. by destruct Hws.
    + apply after_battle_wf; try done. by destruct Hwo.
  - apply map_Forall_insert_2; [|done].
    apply after_self_battle_wf; [by apply (Hh l)|done].
Qed.

Lemma run_ops_wf os h :
  map_Forall (λ _, army_wf) h → map_Forall (λ _, army_wf) (run_ops os h).
Proof. apply run_ops_ind. apply heap_step_wf. Qed.

End WellFormed.

(** X6: Whatever the program, every unit of every army has the type name,
    training cost and training gain that its class had at creation, and
    at least the base strength of its class: trainings and
    transformations only ever add strength. *)
Theorem reachable_units_keep_class_figures (os : list op) (l : nat)
    (a : Army) (u : Unit) :
  run_ops os ∅ !! l = Some a → u ∈ units a →
  (cls u = PikemanClass ∧ unit_type u = "pikeman" ∧
   training_cost u = 10 ∧ training_gain u = 3 ∧ 5 ≤ strength u) ∨
  (cls u = ArcherClass ∧ unit_type u = "archer" ∧
   training_cost u = 20 ∧ training_gain u = 7 ∧ 10 ≤ strength u) ∨
  (cls u = KnightClass ∧ unit_type u = "knight" ∧
   training_cost u = 30 ∧ training_gain u = 10 ∧ 20 ≤ strength u).
Proof.
  intros Hl Hu.
  destruct (run_ops_wf os ∅ (map_Forall_empty _) l a Hl) as (_ & Hus & _).
  rewrite Forall_forall in Hus.
  destruct (Hus u Hu) as (Hty & Hcost & Hgain & Hs & _).
  destruct (cls u); simpl in *; auto 10.
Qed.

Lemma reachable_units_keep_class_figures_witness :
  ∃ a u,
    run_ops [OpNew "chinese"; OpTrain 0 0; OpTransform 0 0 "archer"] ∅
      !! 0%nat = Some a ∧
    units a !! 0%nat = Some u ∧
    cls u = ArcherClass ∧ unit_type u = "archer" ∧
    training_cost u = 20 ∧ training_gain u = 7 ∧ 10 ≤ strength u.
Proof.
  eexists _, _. split; [vm_compute; reflexivity|]. split; [reflexivity|].
  destruct (reachable_units_keep_class_figures
              [OpNew "chinese"; OpTrain 0 0; OpTransform 0 0 "archer"] 0 _ _
              ltac:(vm_compute; reflexivity) ltac:(left))
    as [(Hc & _)|[H|(Hc & _)]]; [discriminate Hc|exact H|discriminate Hc].
Defined.

(** X7: Whatever the program, every unit of an army is exactly as old as the
    army's battle history is long: all units of an army have the same
    [years_of_life], the number of battle records of the army. *)
Theorem reachable_units_age_is_history_length (os : list op) (l : nat)
    (a : Army) (u : Unit) :
  run_ops os ∅ !! l = Some a → u ∈ units a →
  years_of_life u = Z.of_nat (length (battle_record a)).
Proof.
  intros Hl Hu.
  destruct (run_ops_wf os ∅ (map_Forall_empty _) l a Hl) as (_ & Hus & _).
  rewrite Forall_forall in Hus. by destruct (Hus u Hu) as (_ & _ & _ & _ & ?).
Qed.

Lemma reachable_units_age_is_history_length_witness :
  ∃ a u,
    run_ops [OpNew "chinese"; OpNew "english"; OpAttack 0 1; OpAttack 1 1] ∅
      !! 1%nat = Some a ∧
    units a !! 0%nat = Some u ∧
    length (battle_record a) = 3%nat ∧ years_of_life u = 3.
Proof.
  eexists _, _. split; [vm_compute; reflexivity|]. split; [reflexivity|].
  split; [reflexivity|].
  apply (reachable_units_age_is_history_length
           [OpNew "chinese"; OpNew "english"; OpAttack 0 1; OpAttack 1 1] 1 _ _
           ltac:(vm_compute; reflexivity) ltac:(left)).
Defined.

(** X8: Whatever the program, every army's civilization is one of the three
    preset names up to case, and every battle record is consistent: it
    names such a civilization, both strengths are at least 5 (both sides
    had units), and the result is "victory", "defeat" or "draw" according
    to whether the own strength is greater than, less than or equal to
    the enemy's. *)
Theorem reachable_records_consistent (os : list op) (l : nat) (a : Army) :
  run_ops os ∅ !! l = Some a →
  lower (civilization a) ∈ preset_names ∧
  ∀ r, r ∈ battle_record a →
    lower (opponent r) ∈ preset_names ∧
    5 ≤ our_strength r ∧ 5 ≤ enemy_strength r ∧
    ((enemy_strength r < our_strength r ∧ result r = "victory") ∨
     (our_strength r < enemy_strength r ∧ result r = "defeat") ∨
     (our_strength r = enemy_strength r ∧ result r = "draw")).
Proof.
  intros Hl.
  destruct (run_ops_wf os ∅ (map_Forall_empty _) l a Hl) as (Hciv & _ & Hrs).
  split; [done|]. intros r Hr. rewrite Forall_forall in Hrs.
  destruct (Hrs r Hr) as (Hopp & Hour & Henemy & ->).
  repeat split; try done. apply battle_result_cases.
Qed.

Lemma reachable_records_consistent_witness :
  ∃ a r,
    run_ops [OpNew "chinese"; OpNew "english"; OpAttack 0 1] ∅
      !! 0%nat = Some a ∧
    battle_record a = [r] ∧
    our_strength r < enemy_strength r ∧ result r = "defeat".
Proof.
  eexists _, _. split; [vm_compute; reflexivity|]. split; [reflexivity|].
  destruct (reachable_records_consistent
              [OpNew "chinese"; OpNew "english"; OpAttack 0 1] 0 _
              ltac:(vm_compute; reflexivity)) as (_ & Hrs).
  destruct (Hrs _ ltac:(left)) as (_ & _ & _ & [(Hlt & _)|[H|(Heq & _)]]).
  - vm_compute in Hlt. discriminate Hlt.
  - exact H.
  - vm_compute in Heq. discriminate Heq.
Defined.

(** * What a program cannot undo *)

Section Evolution.

Implicit Types (h : gmap nat Army) (a : Army).

Lemma army_evolves_refl a : army_evolves a a.
Proof. repeat split; done. Qed.

Lemma army_evolves_trans a1 a2 a3 :
  army_evolves a1 a2 → army_evolves a2 a3 → army_evolves a1 a3.
Proof.
  intros (Hc1 & Hp1 & Hl1) (Hc2 & Hp2 & Hl2). split; [congruence|].
  split; [by etrans|lia].
Qed.

Lemma after_battle_evolves a opponent_name our enemy res :
  army_evolves a (after_battle a opponent_name our enemy res).
Proof.
  split; [done|]. split; simpl.
  - by apply prefix_app_r.
  - rewrite length_fmap, strongest_removed_length. lia.
Qed.

Lemma after_self_battle_evolves a : army_evolves a (after_self_battle a).
Proof.
  split; [done|]. split; unfold after_self_battle; cbn [units battle_record].
  - by do 2 apply prefix_app_r.
  - rewrite !length_fmap, strongest_removed_length. lia.
Qed.

Lemma heap_step_evolves h h' :
  heap_step h h' →
  ∀ l a, h !! l = Some a → ∃ a', h' !! l = Some a' ∧ army_evolves a a'.
Proof.
  intros Hstep l0 a0 Hl0. destruct Hstep as
    [h|h civ a Ha|h l a i u Hl Hu Hg|h l a i u target cost c Hl Hu Hr Hg
    |h self other_army s o Hne Hs Ho Hsu Hou our enemy res|h l s Hs Hsu].
  - exists a0. split; [done|apply army_evolves_refl].
  - exists a0. split; [|apply army_evolves_refl].
    rewrite lookup_insert_ne; [done|]. intros <-.
    pose proof (is_fresh (dom h)) as Hf. apply not_elem_of_dom in Hf.
    congruence.
  - destruct (decide (l = l0)) as [->|Hne].
    + rewrite lookup_insert_eq. eexists. split; [done|]. simplify_eq.
      repeat split; simpl; [done|]. by rewrite length_insert.
    + rewrite lookup_insert_ne by done. exists a0.
      split; [done|apply army_evolves_refl].
  - destruct (decide (l = l0)) as [->|Hne].
    + rewrite lookup_insert_eq. eexists. split; [done|]. simplify_eq.
      repeat split; simpl; [done|]. by rewrite length_insert.
    + rewrite lookup_insert_ne by done. exists a0.
      split; [done|apply army_evolves_refl].
  - destruct (decide (other_army = l0)) as [->|Hno].
    { rewrite lookup_insert_eq. eexists. split; [done|]. simplify_eq.
      apply after_battle_evolves. }
    rewrite lookup_insert_ne by done.
    destruct (decide (self = l0)) as [->|Hns].
    { rewrite lookup_insert_eq. eexists. split; [done|]. simplify_eq.
      apply after_battle_evolves. }
    rewrite lookup_insert_ne by done. exists a0.
    split; [done|apply army_evolves_refl].
  - destruct (decide (l = l0)) as [->|Hne].
    + rewrite lookup_insert_eq. eexists. split; [done|]. simplify_eq.
      apply after_self_battle_evolves.
    + rewrite lookup_insert_ne by done. exists a0.
      split; [done|apply army_evolves_refl].
Qed.

End Evolution.

(** X9: Whatever the program and the heap it starts from, an army stays at its
    address, keeps its civilization, never gains a unit, and its battle
    history only grows at the end: the earlier records stay as they are,
    in their order. *)
Theorem history_is_append_only (os : list op) (h : gmap nat Army) (l : nat)
    (a : Army) :
  h !! l = Some a →
  ∃ a',
    run_ops os h !! l = Some a' ∧
    civilization a' = civilization a ∧
    battle_record a `prefix_of` battle_record a' ∧
    (length (units a') ≤ length (units a))%nat.
Proof.
  intros Hl.
  assert (∀ l a, h !! l = Some a →
          ∃ a', run_ops os h !! l = Some a' ∧ army_evolves a a') as Hall.
  { apply (run_ops_ind (λ h', ∀ l a, h !! l = Some a →
                          ∃ a', h' !! l = Some a' ∧ army_evolves a a')).
    - intros h1 h2 Hstep IH l1 a1 Hl1.
      destruct (IH l1 a1 Hl1) as (a2 & Hl2 & He2).
      destruct (heap_step_evolves h1 h2 Hstep l1 a2 Hl2) as (a3 & Hl3 & He3).
      exists a3. split; [done|]. by eapply army_evolves_trans.
    - intros l1 a1 Hl1. exists a1. split; [done|apply army_evolves_refl]. }
  destruct (Hall l a Hl) as (a' & Hl' & Hc & Hp & Hlen). by exists a'.
Qed.

Lemma history_is_append_only_witness :
  ∃ a',
    run_ops [OpNew "english"; OpAttack 0 1; OpTrain 0 3; OpAttack 1 0]
            {[ 0%nat := chinese ]} !! 0%nat = Some a' ∧
    civilization a' = "chinese" ∧
    battle_record chinese `prefix_of` battle_record a' ∧
    (length (units a') ≤ 29)%nat.
Proof.
  apply (history_is_append_only
           [OpNew "english"; OpAttack 0 1; OpTrain 0 3; OpAttack 1 0]
           {[ 0%nat := chinese ]} 0 chinese).
  reflexivity.
Defined.

(** * The battle history report *)

Section Report.

Lemma string_app_assoc (s1 s2 s3 : string) :
  ((s1 ++ s2) ++ s3 = s1 ++ (s2 ++ s3))%string.
Proof.
  induction s1 as [|c s1 IH]; [done|].
  change (String c ((s1 ++ s2) ++ s3) = String c (s1 ++ (s2 ++ s3)))%string.
  by rewrite IH.
Qed.

Lemma join_snoc sep (ls : list string) (l : string) :
  ls ≠ [] → join sep (ls ++ [l]) = (join sep ls ++ sep ++ l)%string.
Proof.
  induction ls as [|x ls IH]; intros Hne; [done|].
  destruct ls as [|y ls]; [done|].
  change (join sep ((x :: y :: ls) ++ [l]))
    with (x ++ sep ++ join sep ((y :: ls) ++ [l]))%string.
  rewrite IH by done.
  change (join sep (x :: y :: ls)) with (x ++ sep ++ join sep (y :: ls))%string.
  by rewrite !string_app_assoc.
Qed.

Lemma get_battle_record_empty a :
  battle_record a = [] →
  get_battle_record a
  = ("Army of " ++ civilization a ++ newline ++ "No battles recorded")%string.
Proof. intros H. unfold get_battle_record. by rewrite H. Qed.

Lemma get_battle_record_first a r :
  battle_record a = [] →
  get_battle_record (set_battle_record (battle_record a ++ [r]) a)
  = (("Army of " ++ civilization a) ++ newline ++ battle_line r)%string.
Proof. intros H. unfold get_battle_record. simpl. by rewrite H. Qed.

Lemma get_battle_record_next a r :
  battle_record a ≠ [] →
  get_battle_record (set_battle_record (battle_record a ++ [r]) a)
  = (get_battle_record a ++ newline ++ battle_line r)%string.
Proof.
  intros H. unfold get_battle_record.
  cbn [battle_record civilization set_battle_record].
  destruct (battle_record a) as [|r0 rs] eqn:Hrs; [done|].
  change (join newline (("Army of " ++ civilization a)%string
                        :: (battle_line <$> ((r0 :: rs) ++ [r])%list))
          = (join newline (("Army of " ++ civilization a)%string
                           :: (battle_line <$> r0 :: rs))
             ++ newline ++ battle_line r)%string).
  rewrite fmap_app. by apply (join_snoc newline (_ :: _)).
Qed.

End Report.

(** X10: The report grows with the history.  With no battle recorded it is the
    header line followed by "No battles recorded"; the first record
    replaces that second line by its own line; every later record adds its
    line, after a line break, to the report as it was. *)
Theorem report_follows_history (a : Army) (r : BattleRecord) :
  let header := ("Army of " ++ civilization a)%string in
  let a' := set_battle_record (battle_record a ++ [r]) a in
  (battle_record a = [] →
     get_battle_record a
     = (header ++ newline ++ "No battles recorded")%string ∧
     get_battle_record a' = (header ++ newline ++ battle_line r)%string) ∧
  (battle_record a ≠ [] →
     get_battle_record a'
     = (get_battle_record a ++ newline ++ battle_line r)%string).
Proof.
  intros header a'. split.
  - intros H. split.
    + rewrite (get_battle_record_empty a H). unfold header.
      by rewrite string_app_assoc.
    + by apply get_battle_record_first.
  - by apply get_battle_record_next.
Qed.

Lemma report_follows_history_witness :
  get_battle_record english
  = ("Army of english" ++ newline ++ "No battles recorded")%string ∧
  get_battle_record
    (set_battle_record [mkBattleRecord "chinese" 350 300 "victory"] english)
  = ("Army of english" ++ newline ++ "Vs chinese: victory (350 vs 300)")%string.
Proof.
  apply (proj1 (report_follows_history english
                  (mkBattleRecord "chinese" 350 300 "victory"))).
  reflexivity.
Defined.

Section ReportAfterAttack.

Lemma get_battle_record_after_battle a opponent_name our enemy res :
  get_battle_record (after_battle a opponent_name our enemy res)
  = get_battle_record
      (set_battle_record
         (battle_record a ++ [ {| opponent := opponent_name;
                                  our_strength := our;
                                  enemy_strength := enemy;
                                  result := res |} ]) a).
Proof. reflexivity. Qed.

Lemma get_battle_record_append a r :
  get_battle_record (set_battle_record (battle_record a ++ [r]) a)
  = (match battle_record a with
     | [] => "Army of " ++ civilization a
     | _ :: _ => get_battle_record a
     end ++ newline ++ battle_line r)%string.
Proof.
  pose proof (get_battle_record_first a r) as Hfirst.
  pose proof (get_battle_record_next a r) as Hnext.
  destruct (battle_record a) as [|r0 rs]; [by apply Hfirst|by apply Hnext].
Qed.

End ReportAfterAttack.

(** X11: After a battle between two different armies, each army's report is its
    report from before the battle (just the header line, if it had no
    battle yet) followed by one new line: "Vs", the other army's
    civilization, the result from its own side, and the two total
    strengths from before the battle in decimal, its own first. *)
Theorem report_after_attack (h : gmap nat Army) (self other_army : nat)
    (s o : Army) :
  self ≠ other_army →
  h !! self = Some s → h !! other_army = Some o →
  units s ≠ [] → units o ≠ [] →
  ∃ res s' o',
    attack self other_army h
    = (inr res, <[other_army := o']> (<[self := s']> h)) ∧
    get_battle_record s' =
      (match battle_record s with
       | [] => "Army of " ++ civilization s
       | _ :: _ => get_battle_record s
       end ++ newline
       ++ "Vs " ++ civilization o ++ ": " ++ res
       ++ " (" ++ str_of_int (get_total_strength s)
       ++ " vs " ++ str_of_int (get_total_strength o) ++ ")")%string ∧
    get_battle_record o' =
      (match battle_record o with
       | [] => "Army of " ++ civilization o
       | _ :: _ => get_battle_record o
       end ++ newline
       ++ "Vs " ++ civilization s ++ ": " ++ mirrored_result res
       ++ " (" ++ str_of_int (get_total_strength o)
       ++ " vs " ++ str_of_int (get_total_strength s) ++ ")")%string.
Proof.
  intros Hne Hs Ho Hsu Hou.
  eexists _, _, _. split; [by apply attack_distinct|].
  rewrite !get_battle_record_after_battle, !get_battle_record_append.
  split; reflexivity.
Qed.

Lemma report_after_attack_witness :
  ∃ res s' o',
    attack 0 1 {[ 0%nat := english; 1%nat := chinese ]}
    = (inr res, <[1%nat := o']> (<[0%nat := s']> {[ 0%nat := english; 1%nat := chinese ]})) ∧
    get_battle_record s'
    = ("Army of english" ++ newline ++ "Vs chinese: victory (350 vs 300)")%string ∧
    get_battle_record o'
    = ("Army of chinese" ++ newline ++ "Vs english: defeat (300 vs 350)")%string.
Proof.
  destruct (report_after_attack {[ 0%nat := english; 1%nat := chinese ]}
              0 1 english chinese)
    as (res & s' & o' & Hrun & Hrs & Hro);
    [done|reflexivity|reflexivity|discriminate|discriminate|].
  exists res, s', o'. split; [exact Hrun|].
  assert (Hres : res = "victory").
  { pose proof Hrun as Hrun'.
    rewrite (attack_distinct {[ 0%nat := english; 1%nat := chinese ]}
               0 1 english chinese) in Hrun';
      [|done|reflexivity|reflexivity|discriminate|discriminate].
    apply (f_equal fst) in Hrun'. simpl in Hrun'. injection Hrun' as <-.
    reflexivity. }
  rewrite Hrs, Hro, Hres. split; reflexivity.
Defined.

(** X12: Between two different armies with units it does not matter who
    attacks: [a.attack(b)] and [b.attack(a)] leave the same heap, and each
    returns the mirror image of what the other returns. *)
Theorem attack_is_symmetric (h : gmap nat Army) (self other_army : nat)
    (s o : Army) :
  self ≠ other_army →
  h !! self = Some s → h !! other_army = Some o →
  units s ≠ [] → units o ≠ [] →
  ∃ res h',
    attack self other_army h = (inr res, h') ∧
    attack other_army self h = (inr (mirrored_result res), h').
Proof.
  intros Hne Hs Ho Hsu Hou.
  eexists _, _. split; [by apply attack_distinct|].
  rewrite (attack_distinct h other_army self o s) by done.
  rewrite !mirrored_battle_result.
  rewrite <- (mirrored_battle_result (get_total_strength o) (get_total_strength s)).
  rewrite !mirrored_battle_result.
  f_equal. by apply insert_insert_ne.
Qed.

Lemma attack_is_symmetric_witness :
  ∃ res h',
    attack 0 1 {[ 0%nat := english; 1%nat := chinese ]} = (inr res, h') ∧
    attack 1 0 {[ 0%nat := english; 1%nat := chinese ]}
    = (inr (mirrored_result res), h').
Proof.
  apply (attack_is_symmetric {[ 0%nat := english; 1%nat := chinese ]}
           0 1 english chinese);
    [done|reflexivity|reflexivity|discriminate|discriminate].
Defined.

(** * Units as objects: running the methods *)

Section ObjectRuns.

Implicit Types (W : Obj.World) (a : Obj.Army) (ps : list nat) (p l : nat).
























End ObjectRuns.

(** * Units as objects: a battle between two different armies *)

Section ObjectAttack.

Implicit Types (W : Obj.World) (a s o : Obj.Army) (ps : list nat).

Variables (self other_army : nat).
Hypothesis distinct : self ≠ other_army.








End ObjectAttack.

(** * Units as objects: the worlds a program can reach *)

Section ObjectInvariant.

Implicit Types (W : Obj.World) (a : Obj.Army) (ps : list nat) (p q l : nat).
















End ObjectInvariant.

Section ObjectInvariantCalls.

Implicit Types (W : Obj.World) (a : Obj.Army) (ps : list nat) (p q l : nat).












End ObjectInvariantCalls.

Section ObjectAgeing.


End ObjectAgeing.




(** * Lower-casing outside ASCII *)

Section LowerCasing.

(** U+212A KELVIN SIGN lower-cases to ["k"]. *)
Lemma lower_kelvin_sign (s : string) :
  lower (String (ascii_of_nat 226)
           (String (ascii_of_nat 132) (String (ascii_of_nat 170) s)))
  = String "k"%char (lower s).
Proof. reflexivity. Qed.

(** U+0130 lower-cases to ["i"] followed by U+0307, which is not ASCII. *)
Lemma lower_dotted_capital_i (s : string) :
  lower (String (ascii_of_nat 196) (String (ascii_of_nat 176) s))
  = String "i"%char
      (String (ascii_of_nat 204) (String (ascii_of_nat 135) (lower s))).
Proof. reflexivity. Qed.

(** A target spelt with the Kelvin sign is the target "knight": the third
    unit of a new Chinese army, an archer, becomes a knight for 40 gold. *)
Lemma transform_unit_kelvin_target :
  ∃ a',
    transform_unit 2
      (String (ascii_of_nat 226)
         (String (ascii_of_nat 132) (String (ascii_of_nat 170) "NIGHT")))
      chinese
    = inr (true, a') ∧
    gold a' = 960 ∧
    cls <$> units a' !! 2%nat = Some KnightClass.
Proof. eexists. split; [reflexivity|]. split; reflexivity. Qed.

End LowerCasing.

(** * An army attacking itself, units being objects *)

Section ObjectSelfAttack.

(** The same run as for the lists of values: the English army draws
    against itself, two units leave the roster unaged, and each of the 28
    units that stay is aged by both ageing passes. *)
Lemma obj_attack_self_ages_twice :
  ∃ W' s',
    Obj.attack 0 0 (Obj.run_ops [OpNew "english"] Obj.empty_world)
    = (inr "draw", W') ∧
    Obj.army_heap W' !! 0%nat = Some s' ∧
    (λ p, years_of_life <$> Obj.unit_heap W' !! p) <$> Obj.units s'
    = replicate 28 (Some 2) ∧
    (λ p, years_of_life <$> Obj.unit_heap W' !! p) <$> [20; 21]%nat
    = replicate 2 (Some 0).
Proof.
  eexists _, _. split; [vm_compute; reflexivity|].
  split; [vm_compute; reflexivity|]. split; vm_compute; reflexivity.
Qed.

End ObjectSelfAttack.
